(** * GlyphOS kernel: a shallow embedding of [core.py], [phase.py] and
      [validation.py], and the properties of its specification.

    The code computes on Python floats.  Two models of them are used, and
    every property says which one it is about.

    The exact model.  A Python [float] is an element of [pyfloat]: a real
    number, or one of the three IEEE special values the code tests for
    ([math.isfinite], comparisons with NaN).  Arithmetic on finite values
    is exact: rounding, overflow (to infinity, or to Python's
    [OverflowError]), underflow and signed zeros are outside this model.  A
    Python [complex] whose parts are finite is a pair of reals.  This model
    carries the properties that control flow decides (validation guards,
    gates, the indices an error reports) and the properties of the
    formulas, which are stated as holding in exact arithmetic.

    The binary64 model, module [B64].  A Python [float] is a primitive
    binary64 float, with IEEE rounding, signed zeros, infinities and NaN;
    [**], [math.sqrt], [/], [%], [abs] and [cmath.phase] raise and return
    what Python does.  The C library functions [exp], [cos], [sin],
    [hypot] and [atan2] are parameters.  This model carries the properties
    that depend on rounding, on signed zeros or on overflow.

    [random.Random] is an abstract generator specified by the contract of
    the methods called.  The text of an error message is replaced by a tag
    that keeps the indices the message prints. *)

From Stdlib Require Import String DecimalString.
From Stdlib Require Import Floats.
From Stdlib Require Import Reals Lra Lia ZArith Bool Arith List.
Import ListNotations.

Local Open Scope R_scope.

(** ** Exceptions and fallible computations *)

(** The payload of a [ValueError] keeps the indices an f-string message
    would print. *)
Inductive value_error : Type :=
| Nu0NotFinite                         (* "nu0_hz must be finite" *)
| Nu0NotPositive                       (* "nu0_hz must be > 0" *)
| NuNotFinite (i : nat)                (* "nu_i_hz[i] must be finite" *)
| NuNotPositive (i : nat)              (* "nu_i_hz[i] must be > 0" *)
| ANotFinite (j : nat)                 (* "a_j[j] must be finite" *)
| ANotPositive (j : nat)               (* "a_j[j] must be > 0" *)
| ThetaRowCount (got want : nat)       (* "theta_ij row count must equal len(nu_i_hz)" *)
| ThetaRowLength (i got want : nat)    (* "theta_ij[i] length must equal len(a_j)" *)
| ThetaNotFinite (i j : nat)           (* "theta_ij[i][j] must be finite" *)
| LogArgument (i j : nat)              (* "MJLOG log-argument must be finite and > 0" *)
| SpeedNotPositive                     (* "v must be > 0" *)
| DimensionMismatch                    (* "X and x_star must have same dimension" *)
| PsiLength                            (* "psi_j length must equal len(a_j)" *)
| SampleTooLarge                       (* random.sample: "Sample larger than population or is negative" *)
| MathDomain.                          (* math.sqrt / math.log: "math domain error" *)

Inductive exn : Type :=
| ValueError (e : value_error)
| ZeroDivisionError
| IndexError
| OverflowError.

Inductive result (A : Type) : Type :=
| Ok (a : A)
| Raise (e : exn).
Arguments Ok {A} a.
Arguments Raise {A} e.

Definition bind {A B : Type} (m : result A) (k : A -> result B) : result B :=
  match m with
  | Ok a => k a
  | Raise e => Raise e
  end.

Notation "x <- m ;; k" := (bind m (fun x => k))
  (at level 61, m at next level, right associativity).
Notation "' p <- m ;; k" := (bind m (fun x => match x with p => k end))
  (at level 61, p pattern, m at next level, right associativity).

Definition raises {A : Type} (m : result A) : Prop :=
  exists e, m = Raise e.

Definition is_value_error {A : Type} (m : result A) : Prop :=
  exists e, m = Raise (ValueError e).

(** ** Python floats *)

Inductive pyfloat : Type :=
| Fin (r : R)
| PInf
| NInf
| NaN.

Definition Rleb (x y : R) : bool := if Rle_dec x y then true else false.
Definition Rltb (x y : R) : bool := if Rlt_dec x y then true else false.
Definition Reqb (x y : R) : bool := if Req_dec_T x y then true else false.

Definition isfinite (x : pyfloat) : bool :=
  match x with Fin _ => true | _ => false end.

(** [x <= y]: false as soon as a NaN is involved. *)
Definition fle (x y : pyfloat) : bool :=
  match x, y with
  | NaN, _ | _, NaN => false
  | NInf, _ => true
  | _, PInf => true
  | Fin a, Fin b => Rleb a b
  | _, _ => false
  end.

(** [x > y]. *)
Definition fgt (x y : pyfloat) : bool :=
  match x, y with
  | NaN, _ | _, NaN => false
  | PInf, PInf => false
  | PInf, _ => true
  | NInf, _ => false
  | Fin _, NInf => true
  | Fin _, PInf => false
  | Fin a, Fin b => Rltb b a
  end.

Definition fneg (x : pyfloat) : pyfloat :=
  match x with
  | Fin r => Fin (- r)
  | PInf => NInf
  | NInf => PInf
  | NaN => NaN
  end.

Definition fabs (x : pyfloat) : pyfloat :=
  match x with
  | Fin r => Fin (Rabs r)
  | PInf | NInf => PInf
  | NaN => NaN
  end.

Definition fadd (x y : pyfloat) : pyfloat :=
  match x, y with
  | NaN, _ | _, NaN => NaN
  | PInf, NInf | NInf, PInf => NaN
  | PInf, _ | _, PInf => PInf
  | NInf, _ | _, NInf => NInf
  | Fin a, Fin b => Fin (a + b)
  end.

Definition fsub (x y : pyfloat) : pyfloat := fadd x (fneg y).

(** The infinity whose sign is that of [s * r] ([s] true: positive
    infinity operand); NaN when [r] is zero. *)
Definition inf_times (positive : bool) (r : R) : pyfloat :=
  if Reqb r 0 then NaN
  else if Bool.eqb positive (Rltb 0 r) then PInf else NInf.

Definition fmul (x y : pyfloat) : pyfloat :=
  match x, y with
  | NaN, _ | _, NaN => NaN
  | PInf, PInf | NInf, NInf => PInf
  | PInf, NInf | NInf, PInf => NInf
  | PInf, Fin r | Fin r, PInf => inf_times true r
  | NInf, Fin r | Fin r, NInf => inf_times false r
  | Fin a, Fin b => Fin (a * b)
  end.

(** [x / y]: Python raises [ZeroDivisionError] on a zero divisor. *)
Definition fdiv (x y : pyfloat) : result pyfloat :=
  match y with
  | Fin b =>
      if Reqb b 0 then Raise ZeroDivisionError
      else match x with
           | Fin a => Ok (Fin (a / b))
           | PInf => Ok (if Rltb 0 b then PInf else NInf)
           | NInf => Ok (if Rltb 0 b then NInf else PInf)
           | NaN => Ok NaN
           end
  | PInf | NInf =>
      match x with
      | Fin _ => Ok (Fin 0)
      | _ => Ok NaN
      end
  | NaN => Ok NaN
  end.

(** [x ** 2] in exact arithmetic; the [OverflowError] of a square that
    overflows is in [B64.pow2]. *)
Definition fsquare (x : pyfloat) : pyfloat :=
  match x with
  | Fin r => Fin (r * r)
  | PInf | NInf => PInf
  | NaN => NaN
  end.

(** [math.sqrt]: a "math domain error" on negative input. *)
Definition fsqrt (x : pyfloat) : result pyfloat :=
  match x with
  | Fin r => if Rltb r 0 then Raise (ValueError MathDomain) else Ok (Fin (sqrt r))
  | PInf => Ok PInf
  | NInf => Raise (ValueError MathDomain)
  | NaN => Ok NaN
  end.

(** ** Finite complex numbers *)

Definition complex : Type := (R * R)%type.

Definition RtoC (x : R) : complex := (x, 0).
Definition Ci : complex := (0, 1).
Definition C0 : complex := (0, 0).

Definition Cadd (z w : complex) : complex := (fst z + fst w, snd z + snd w).
Definition Csub (z w : complex) : complex := (fst z - fst w, snd z - snd w).
Definition Cmul (z w : complex) : complex :=
  (fst z * fst w - snd z * snd w, fst z * snd w + snd z * fst w).

(** [cmath.exp]. *)
Definition Cexp (z : complex) : complex := (exp (fst z) * cos (snd z), exp (fst z) * sin (snd z)).

(** [abs] of a complex in exact arithmetic: the Euclidean norm; rounding
    and the [OverflowError] of a modulus that overflows are in [B64.c_abs]. *)
Definition Cabs (z : complex) : R := sqrt (fst z * fst z + snd z * snd z).

(** [math.atan2 y x] on reals, with values in (-pi, pi]; the signed zeros
    that close the interval at [-pi] are in [B64.c_phase]. *)
Definition atan2 (y x : R) : R :=
  if Rlt_dec 0 x then atan (y / x)
  else if Rlt_dec x 0 then
         if Rle_dec 0 y then atan (y / x) + PI else atan (y / x) - PI
  else if Rlt_dec 0 y then PI / 2
  else if Rlt_dec y 0 then - (PI / 2)
  else 0.

(** [cmath.phase z = math.atan2 (z.imag, z.real)]. *)
Definition Cphase (z : complex) : R := atan2 (snd z) (fst z).

(** ** Sequences *)

(** [l[i]] for a non-negative index. *)
Definition getitem {A : Type} (l : list A) (i : nat) : result A :=
  match nth_error l i with
  | Some x => Ok x
  | None => Raise IndexError
  end.

(** ** core.py *)

Definition PHI : pyfloat := Fin ((1 + sqrt 5) / 2).
Definition PI_f : pyfloat := Fin PI.

(** The literals [838.776] and [1e-3] denote the binary64 floats nearest
    to them, [0x1.a36353f7ced91p+9] and [0x1.0624dd2f1a9fcp-10]; these are
    their exact values.  [432.0] is a binary64 float. *)
Definition f_838_776 : R := 7377951720795537 / 8796093022208.
Definition anchor_tol : R := 1152921504606847 / 1152921504606846976.

Definition F_432 : pyfloat := Fin 432.
Definition F_838_776 : pyfloat := Fin f_838_776.
Definition ANCHOR_TOL_HZ : pyfloat := Fin anchor_tol.

(** [any(abs(float(f) - float(target_hz)) <= tol_hz for f in freqs_hz)] *)
Definition has_anchor_tol (freqs_hz : list pyfloat) (target_hz tol_hz : pyfloat) : bool :=
  existsb (fun f => fle (fabs (fsub f target_hz)) tol_hz) freqs_hz.

Definition has_anchor (freqs_hz : list pyfloat) (target_hz : pyfloat) : bool :=
  has_anchor_tol freqs_hz target_hz ANCHOR_TOL_HZ.

(** [4.0 / math.sqrt(phi)] *)
Definition golden_pi (phi : pyfloat) : result pyfloat :=
  s <- fsqrt phi ;; fdiv (Fin 4) s.

(** [float(base_freq_hz) * (float(pi) / float(phi))] *)
Definition bridge_frequency (base_freq_hz pi phi : pyfloat) : result pyfloat :=
  q <- fdiv pi phi ;; Ok (fmul base_freq_hz q).

(** *** MJLOG *)

(** The two validation loops over [nu_i] and over [a]: the first entry that
    is not finite, or not positive, raises. *)
Fixpoint check_entries (not_finite not_positive : nat -> value_error)
    (i : nat) (xs : list pyfloat) : result unit :=
  match xs with
  | [] => Ok tt
  | x :: xs' =>
      if negb (isfinite x) then Raise (ValueError (not_finite i))
      else if fle x (Fin 0) then Raise (ValueError (not_positive i))
      else check_entries not_finite not_positive (S i) xs'
  end.

(** The inner loop over one supplied row of [theta_ij]. *)
Fixpoint theta_row (i j : nat) (row : list pyfloat) : result (list R) :=
  match row with
  | [] => Ok []
  | th :: row' =>
      match th with
      | Fin t => row_f <- theta_row i (S j) row' ;; Ok (t :: row_f)
      | _ => Raise (ValueError (ThetaNotFinite i j))
      end
  end.

(** The outer loop over the supplied rows of [theta_ij]. *)
Fixpoint theta_rows (K i : nat) (rows : list (list pyfloat)) : result (list (list R)) :=
  match rows with
  | [] => Ok []
  | row :: rows' =>
      if negb (length row =? K)%nat
      then Raise (ValueError (ThetaRowLength i (length row) K))
      else row_f <- theta_row i 0 row ;;
           theta <- theta_rows K (S i) rows' ;;
           Ok (row_f :: theta)
  end.

Definition theta_of (N K : nat) (theta_ij : option (list (list pyfloat)))
  : result (list (list R)) :=
  match theta_ij with
  | None => Ok (repeat (repeat 0 K) N)
  | Some rows =>
      if negb (length rows =? N)%nat
      then Raise (ValueError (ThetaRowCount (length rows) N))
      else theta_rows K 0 rows
  end.

(** [arg = (nu / nu0_f) * aj] *)
Definition log_argument (nu nu0_f aj : pyfloat) : result pyfloat :=
  q <- fdiv nu nu0_f ;; Ok (fmul q aj).

(** One cell: the guard on [arg], then
    [math.log(arg) * cmath.exp(1j * theta[i][j])]. *)
Definition mjlog_cell (theta : list (list R)) (nu0_f : pyfloat)
    (i : nat) (nu : pyfloat) (j : nat) (aj : pyfloat) : result complex :=
  a <- log_argument nu nu0_f aj ;;
  match a with
  | Fin arg =>
      if Rleb arg 0 then Raise (ValueError (LogArgument i j))
      else
        theta_i <- getitem theta i ;;
        th <- getitem theta_i j ;;
        Ok (Cmul (RtoC (ln arg)) (Cexp (Cmul Ci (RtoC th))))
  | _ => Raise (ValueError (LogArgument i j))
  end.

Fixpoint mjlog_row (theta : list (list R)) (nu0_f : pyfloat)
    (i : nat) (nu : pyfloat) (j : nat) (a : list pyfloat) : result (list complex) :=
  match a with
  | [] => Ok []
  | aj :: a' =>
      c <- mjlog_cell theta nu0_f i nu j aj ;;
      row_out <- mjlog_row theta nu0_f i nu (S j) a' ;;
      Ok (c :: row_out)
  end.

Fixpoint mjlog_rows (theta : list (list R)) (nu0_f : pyfloat)
    (i : nat) (nu_i a : list pyfloat) : result (list (list complex)) :=
  match nu_i with
  | [] => Ok []
  | nu :: nu_i' =>
      row_out <- mjlog_row theta nu0_f i nu 0 a ;;
      out <- mjlog_rows theta nu0_f (S i) nu_i' a ;;
      Ok (row_out :: out)
  end.

Definition mjlog (nu_i_hz a_j : list pyfloat) (nu0_hz : pyfloat)
    (theta_ij : option (list (list pyfloat))) : result (list (list complex)) :=
  if negb (isfinite nu0_hz) then Raise (ValueError Nu0NotFinite)
  else if fle nu0_hz (Fin 0) then Raise (ValueError Nu0NotPositive)
  else
    _ <- check_entries NuNotFinite NuNotPositive 0 nu_i_hz ;;
    _ <- check_entries ANotFinite ANotPositive 0 a_j ;;
    theta <- theta_of (length nu_i_hz) (length a_j) theta_ij ;;
    mjlog_rows theta nu0_hz 0 nu_i_hz a_j.

(** *** Gate validators *)

(** The values stored in [GateResult.details]. *)
Inductive pyval : Type :=
| VBool (b : bool)
| VFloat (x : pyfloat)
| VStr (s : string).

(** A [dict] with string keys, in insertion order. *)
Definition dict : Type := list (string * pyval).

Fixpoint dict_set (k : string) (v : pyval) (d : dict) : dict :=
  match d with
  | [] => [(k, v)]
  | (k', v') :: d' =>
      if String.eqb k k' then (k, v) :: d' else (k', v') :: dict_set k v d'
  end.

(** [{**d, **extra}] *)
Definition dict_update (d extra : dict) : dict :=
  fold_left (fun acc kv => dict_set (fst kv) (snd kv) acc) extra d.

Record GateResult : Type := mkGateResult {
  gate_id : string;
  eligible : bool;
  reason : string;
  details : dict
}.

Definition _is_pos_finite (x : pyfloat) : bool :=
  isfinite x && fgt x (Fin 0).

(** [str(i)] for a list index. *)
Definition str_of_nat (i : nat) : string :=
  NilEmpty.string_of_uint (Nat.to_uint i).

(** The first entry, with its index, that is not positive and finite. *)
Fixpoint first_bad (i : nat) (xs : list pyfloat) : option (nat * pyfloat) :=
  match xs with
  | [] => None
  | x :: xs' =>
      if negb (_is_pos_finite x) then Some (i, x) else first_bad (S i) xs'
  end.

Definition gate_11 (nu_i_hz a_j : list pyfloat) (nu0_hz : pyfloat)
    (require_432 require_838 : bool) : GateResult :=
  if negb (_is_pos_finite nu0_hz) then
    mkGateResult "GATE11" false "nu0_hz must be finite and > 0" [("nu0_hz"%string, VFloat nu0_hz)]
  else if (length nu_i_hz =? 0)%nat then
    mkGateResult "GATE11" false "nu_i_hz must be non-empty" []
  else if (length a_j =? 0)%nat then
    mkGateResult "GATE11" false "a_j must be non-empty" []
  else
    match first_bad 0 nu_i_hz with
    | Some (i, nu) =>
        mkGateResult "GATE11" false
          ("nu_i_hz[" ++ str_of_nat i ++ "] must be finite and > 0")%string
          [("value"%string, VFloat nu)]
    | None =>
        match first_bad 0 a_j with
        | Some (j, aj) =>
            mkGateResult "GATE11" false
              ("a_j[" ++ str_of_nat j ++ "] must be finite and > 0")%string
              [("value"%string, VFloat aj)]
        | None =>
            let has_432 := has_anchor nu_i_hz F_432 in
            let has_838_776 := has_anchor nu_i_hz F_838_776 in
            let details := [("has_432"%string, VBool has_432);
                            ("has_838_776"%string, VBool has_838_776)] in
            if require_432 && negb has_432 then
              mkGateResult "GATE11" false "432 Hz anchor required but missing" details
            else if require_838 && negb has_838_776 then
              mkGateResult "GATE11" false "838.776 Hz anchor required but missing" details
            else mkGateResult "GATE11" true "OK" details
        end
    end.

(** [f"Prereq {g.gate_id} failed: {g.reason}"] *)
Definition prereq_failed (g : GateResult) : string :=
  ("Prereq " ++ gate_id g ++ " failed: " ++ reason g)%string.

Definition gate_22 (nu_i_hz a_j : list pyfloat) (nu0_hz : pyfloat) : result GateResult :=
  let g11 := gate_11 nu_i_hz a_j nu0_hz false false in
  if negb (eligible g11) then
    Ok (mkGateResult "GATE22" false (prereq_failed g11) (details g11))
  else
    pi_phi <- golden_pi PHI ;;
    fb <- bridge_frequency F_432 PI_f PHI ;;
    let invariants := [("pi_phi"%string, VFloat pi_phi); ("f_bridge"%string, VFloat fb)] in
    if negb (_is_pos_finite pi_phi) || negb (_is_pos_finite fb) then
      Ok (mkGateResult "GATE22" false "Invariant computation failed" invariants)
    else
      Ok (mkGateResult "GATE22" true "OK" (dict_update invariants (details g11))).

Definition gate_33 (nu_i_hz a_j : list pyfloat) (nu0_hz : pyfloat) : result GateResult :=
  g22 <- gate_22 nu_i_hz a_j nu0_hz ;;
  if negb (eligible g22) then
    Ok (mkGateResult "GATE33" false (prereq_failed g22) (details g22))
  else
    Ok (mkGateResult "GATE33" true "OK"
          (dict_update [("stamp"%string, VStr "Gate33 active (minimal)")] (details g22))).

Definition gate_44 (nu_i_hz a_j : list pyfloat) (nu0_hz : pyfloat) : result GateResult :=
  let g11 := gate_11 nu_i_hz a_j nu0_hz true true in
  if negb (eligible g11) then
    Ok (mkGateResult "GATE44" false (prereq_failed g11) (details g11))
  else
    g22 <- gate_22 nu_i_hz a_j nu0_hz ;;
    if negb (eligible g22) then
      Ok (mkGateResult "GATE44" false (prereq_failed g22) (details g22))
    else
      Ok (mkGateResult "GATE44" true "OK"
            (dict_update [("stamp"%string, VStr "Gate44 publish-ready")] (details g22))).

(** A gate call that returns a record with [eligible=True]. *)
Definition reports_eligible (m : result GateResult) : Prop :=
  exists g, m = Ok g /\ eligible g = true.

(** ** phase.py *)

(** The inner loop of [retarded_delays]:
    [d2 = 0.0; for a, b in zip(xi, x_star): d2 += (float(a) - float(b)) ** 2]. *)
Definition dist2 (xi x_star : list pyfloat) : pyfloat :=
  fold_left (fun d2 ab => fadd d2 (fsquare (fsub (fst ab) (snd ab))))
            (combine xi x_star) (Fin 0).

Fixpoint delays_loop (x_star : list pyfloat) (v : pyfloat) (X : list (list pyfloat))
  : result (list pyfloat) :=
  match X with
  | [] => Ok []
  | xi :: X' =>
      if negb (length xi =? length x_star)%nat
      then Raise (ValueError DimensionMismatch)
      else
        d <- fsqrt (dist2 xi x_star) ;;
        tau_i <- fdiv d v ;;
        tau <- delays_loop x_star v X' ;;
        Ok (tau_i :: tau)
  end.

Definition retarded_delays (X : list (list pyfloat)) (x_star : list pyfloat) (v : pyfloat)
  : result (list pyfloat) :=
  if fle v (Fin 0) then Raise (ValueError SpeedNotPositive)
  else delays_loop x_star v X.

(** [[0.0] * K if psi_j is None else [float(x) for x in psi_j]] *)
Definition psi_or_zeros (K : nat) (psi_j : option (list pyfloat)) : list pyfloat :=
  match psi_j with
  | None => repeat (Fin 0) K
  | Some xs => xs
  end.

(** [2.0 * math.pi * float(nu0_hz) * float(aj)] *)
Definition Omega_of (nu0_hz aj : pyfloat) : pyfloat :=
  fmul (fmul (fmul (Fin 2) PI_f) nu0_hz) aj.

(** [Om * (float(t) - float(tau)) + ps] *)
Definition theta_cell (t tau : pyfloat) (Om_ps : pyfloat * pyfloat) : pyfloat :=
  fadd (fmul (fst Om_ps) (fsub t tau)) (snd Om_ps).

Definition retarded_phase_matrix (a_j tau_i : list pyfloat) (nu0_hz t : pyfloat)
    (psi_j : option (list pyfloat)) : result (list (list pyfloat)) :=
  let K := length a_j in
  let psi := psi_or_zeros K psi_j in
  if negb (length psi =? K)%nat then Raise (ValueError PsiLength)
  else
    let Omega := map (Omega_of nu0_hz) a_j in
    Ok (map (fun tau => map (theta_cell t tau) (combine Omega psi)) tau_i).

(** ** validation.py *)

(** Python's [x % m] on real numbers: the result has the sign of [m] and
    is smaller than [m] in magnitude; a zero divisor raises.  The rounded
    operation, which can return [m] itself, is [B64.float_rem]. *)
Definition py_mod (x m : R) : result R :=
  if Reqb m 0 then Raise ZeroDivisionError
  else Ok (x - m * IZR (Int_part (x / m))).

Definition _wrap_pi (x : R) : result R :=
  r <- py_mod (x + PI) (2 * PI) ;; Ok (r - PI).

(** [l[i]] for a Python [int] index: negative indices count from the end. *)
Definition getitem_int {A : Type} (l : list A) (i : Z) : result A :=
  if (0 <=? i)%Z then getitem l (Z.to_nat i)
  else if (- Z.of_nat (length l) <=? i)%Z then getitem l (Z.to_nat (Z.of_nat (length l) + i))
  else Raise IndexError.

(** [dist2 = 0.0; for a, b in zip(X[i], X[k]): dist2 += (float(a) - float(b)) ** 2]
    in exact arithmetic. *)
Definition sqdist (xi xk : list R) : R :=
  fold_left (fun d2 ab => d2 + (fst ab - snd ab) * (fst ab - snd ab)) (combine xi xk) 0.

Fixpoint gradient_loop (theta_ij X : list (list R)) (j : Z) (edges : list (Z * Z))
    (acc : R) (n : nat) : result (R * nat) :=
  match edges with
  | [] => Ok (acc, n)
  | (i, k) :: edges' =>
      xi <- getitem_int X i ;;
      xk <- getitem_int X k ;;
      let dist := sqrt (sqdist xi xk) in
      if Rleb dist 0 then gradient_loop theta_ij X j edges' acc n
      else
        th_i <- getitem_int theta_ij i ;;
        th_ij <- getitem_int th_i j ;;
        th_k <- getitem_int theta_ij k ;;
        th_kj <- getitem_int th_k j ;;
        dth <- _wrap_pi (th_ij - th_kj) ;;
        gradient_loop theta_ij X j edges' (acc + Rabs dth / dist) (S n)
  end.

Definition phase_gradient_proxy (theta_ij X : list (list R)) (edges : list (Z * Z)) (j : Z)
  : result R :=
  '(acc, n) <- gradient_loop theta_ij X j edges 0 0%nat ;;
  Ok (if (n =? 0)%nat then 0 else acc / INR n).

(** [len(M[0]) if N else 0] *)
Definition ncols {A : Type} (M : list (list A)) : nat :=
  match M with
  | [] => 0%nat
  | row :: _ => length row
  end.

(** [M[i][j]] *)
Definition cell (M : list (list complex)) (i j : nat) : result complex :=
  row <- getitem M i ;; getitem row j.

(** [sum(cmath.exp(1j*float(p)) for p in phases)] in exact arithmetic; the
    rounded sum is [B64.resultant]. *)
Definition resultant (phases : list R) : complex :=
  fold_left Cadd (map (fun p => Cexp (Cmul Ci (RtoC p))) phases) C0.

Definition mean_resultant_length (phases : list R) : R :=
  match phases with
  | [] => 0
  | _ => Cabs (resultant phases) / INR (length phases)
  end.

(** *** The random generator

    [random.Random] is library code: its state is abstract and the methods
    the harness calls are specified by their documented contract. *)
Class RandomGen (G : Type) : Type := {
  (** [random.Random(seed)] *)
  rng_seed : Z -> G;
  (** [rng.sample(range(n), 2)] *)
  rng_sample2 : nat -> G -> result (nat * nat * G);
  (** [rng.uniform(a, b)] *)
  rng_uniform : R -> R -> G -> R * G;
  rng_sample2_small :
    forall n g, (n < 2)%nat -> rng_sample2 n g = Raise (ValueError SampleTooLarge);
  rng_sample2_distinct :
    forall n g, (2 <= n)%nat ->
      exists i1 i2 g', rng_sample2 n g = Ok (i1, i2, g')
                       /\ (i1 < n)%nat /\ (i2 < n)%nat /\ i1 <> i2;
  rng_uniform_range :
    forall a b g, a <= b -> a <= fst (rng_uniform a b g) <= b
}.

(** A deterministic generator, a counter, for running the harness on
    concrete inputs. *)
Definition counter_sample2 (n g : nat) : result (nat * nat * nat) :=
  if (n <? 2)%nat then Raise (ValueError SampleTooLarge)
  else Ok (g mod n, (g mod n + 1) mod n, S g)%nat.

Definition counter_uniform (a b : R) (g : nat) : R * nat := ((a + b) / 2, S g).

Section Harness.
Context {G : Type} `{RandomGen G}.

Definition default_rng (rng : option G) : G :=
  match rng with
  | None => rng_seed 0%Z
  | Some g => g
  end.

(** The body of the sampling loop, run [n] times. *)
Fixpoint sample_loop (M : list (list complex)) (N K n : nat)
    (mags phases : list R) (rng : G) : result (list R * list R * G) :=
  match n with
  | O => Ok (mags, phases, rng)
  | S n' =>
      '(i1, i2, rng1) <- rng_sample2 N rng ;;
      '(j1, j2, rng2) <- rng_sample2 K rng1 ;;
      m11 <- cell M i1 j1 ;;
      m22 <- cell M i2 j2 ;;
      m12 <- cell M i1 j2 ;;
      m21 <- cell M i2 j1 ;;
      let d := Csub (Cmul m11 m22) (Cmul m12 m21) in
      sample_loop M N K n' (mags ++ [Cabs d]) (phases ++ [Cphase d]) rng2
  end.

(** Returns [(mags, phases)] and the generator state after the call. *)
Definition sample_minors (M : list (list complex)) (n_samples : Z) (rng : option G)
  : result (list R * list R * G) :=
  let N := length M in
  let K := ncols M in
  sample_loop M N K (Z.to_nat n_samples) [] [] (default_rng rng).

Fixpoint scramble_row (row : list complex) (rng : G) : list complex * G :=
  match row with
  | [] => ([], rng)
  | z :: row' =>
      let mag := Cabs z in
      let '(ph, rng1) := rng_uniform (- PI) PI rng in
      let '(out_row, rng2) := scramble_row row' rng1 in
      (Cmul (RtoC mag) (Cexp (Cmul Ci (RtoC ph))) :: out_row, rng2)
  end.

Fixpoint scramble_rows (M : list (list complex)) (rng : G) : list (list complex) * G :=
  match M with
  | [] => ([], rng)
  | row :: M' =>
      let '(out_row, rng1) := scramble_row row rng in
      let '(out, rng2) := scramble_rows M' rng1 in
      (out_row :: out, rng2)
  end.

(** Returns the scrambled matrix and the generator state after the call. *)
Definition phase_scramble (M : list (list complex)) (rng : option G) : list (list complex) * G :=
  scramble_rows M (default_rng rng).

End Harness.

Definition build_retarded_mjlog (X : list (list pyfloat)) (nu_i_hz a_j : list pyfloat)
    (nu0_hz : pyfloat) (x_star : list pyfloat) (v t : pyfloat)
  : result (list (list complex) * list (list pyfloat) * list pyfloat) :=
  tau <- retarded_delays X x_star v ;;
  theta <- retarded_phase_matrix a_j tau nu0_hz t None ;;
  M <- mjlog nu_i_hz a_j nu0_hz (Some theta) ;;
  Ok (M, theta, tau).

(** ** The remaining functions of core.py and phase.py *)

(** [for x in xs: out.append(f(x))], stopping at the first exception. *)
Fixpoint map_result {A B : Type} (f : A -> result B) (xs : list A) : result (list B) :=
  match xs with
  | [] => Ok []
  | x :: xs' => y <- f x ;; ys <- map_result f xs' ;; Ok (y :: ys)
  end.

(** [x ** n] for a float [x] and an [int] [n] in exact arithmetic: [x ** 0]
    is [1.0] for every [x]; a zero base with a negative exponent raises.
    Overflow ([OverflowError]) and underflow of the power are outside the
    exact model. *)
Definition fpow_int (x : pyfloat) (n : Z) : result pyfloat :=
  if (n =? 0)%Z then Ok (Fin 1)
  else
    match x with
    | Fin r =>
        if Reqb r 0 then
          if (n <? 0)%Z then Raise ZeroDivisionError else Ok (Fin 0)
        else Ok (Fin (powerRZ r n))
    | PInf => Ok (if (n <? 0)%Z then Fin 0 else PInf)
    | NInf => Ok (if (n <? 0)%Z then Fin 0 else if Z.even n then PInf else NInf)
    | NaN => Ok NaN
    end.

(** [f0 * (pi/pi_phi)^n * phi^m] *)
Definition harmonic_ladder (f0_hz : pyfloat) (n m : Z) (pi phi : pyfloat) : result pyfloat :=
  pi_phi <- golden_pi phi ;;
  r <- fdiv pi pi_phi ;;
  rn <- fpow_int r n ;;
  let f := fmul f0_hz rn in
  phim <- fpow_int phi m ;;
  Ok (fmul f phim).

(** [2.0 * math.sqrt(float(R_m) ** 2 + float(H_m) ** 2)] *)
Definition control_path_length (R_m H_m : pyfloat) : result pyfloat :=
  s <- fsqrt (fadd (fsquare R_m) (fsquare H_m)) ;; Ok (fmul (Fin 2) s).

(** [float(L0_m) * float(a_j)] *)
Definition effective_path_length (L0_m a_j : pyfloat) : pyfloat := fmul L0_m a_j.

(** The speed of light, an [int] in the source. *)
Definition C : Z := 299792458.

(** [((2 * int(n) + 1) * float(c_m_per_s)) / (2.0 * float(L0_m))] *)
Definition peak_frequency_control (n : Z) (L0_m c_m_per_s : pyfloat) : result pyfloat :=
  fdiv (fmul (Fin (IZR (2 * n + 1))) c_m_per_s) (fmul (Fin 2) L0_m).

(** [((2 * int(n) + 1) * float(c_m_per_s)) / (2.0 * float(L0_m) * float(phi))] *)
Definition peak_frequency_phi (n : Z) (L0_m phi c_m_per_s : pyfloat) : result pyfloat :=
  fdiv (fmul (Fin (IZR (2 * n + 1))) c_m_per_s) (fmul (fmul (Fin 2) L0_m) phi).

(** [n_values] is a list: the two comprehensions of the source read the
    same values. *)
Definition peak_frequencies (L0_m : pyfloat) (n_values : list Z) (phi c_m_per_s : pyfloat)
  : result (list pyfloat * list pyfloat) :=
  ctrl <- map_result (fun n => peak_frequency_control n L0_m c_m_per_s) n_values ;;
  gr <- map_result (fun n => peak_frequency_phi n L0_m phi c_m_per_s) n_values ;;
  Ok (ctrl, gr).

(** Python's [x % m] on floats: a zero divisor raises first; a NaN or an
    infinite [x] gives NaN; an infinite [m] leaves [x] when the signs agree. *)
Definition fmod (x m : pyfloat) : result pyfloat :=
  match m with
  | Fin b =>
      if Reqb b 0 then Raise ZeroDivisionError
      else match x with
           | Fin a => r <- py_mod a b ;; Ok (Fin r)
           | _ => Ok NaN
           end
  | PInf =>
      match x with
      | Fin a => Ok (if Rltb a 0 then PInf else Fin a)
      | _ => Ok NaN
      end
  | NInf =>
      match x with
      | Fin a => Ok (if Rltb 0 a then NInf else Fin a)
      | _ => Ok NaN
      end
  | NaN => Ok NaN
  end.

(** [theta = (2.0 * math.pi * float(nu_hz) / float(c_m_per_s)) * float(L_eff_m)],
    then [theta % (2.0 * math.pi)]. *)
Definition phase (nu_hz L_eff_m c_m_per_s : pyfloat) : result pyfloat :=
  q <- fdiv (fmul (fmul (Fin 2) PI_f) nu_hz) c_m_per_s ;;
  fmod (fmul q L_eff_m) (fmul (Fin 2) PI_f).

Definition phase_matrix (nu_i_hz L_eff_j_m : list pyfloat) (c_m_per_s : pyfloat)
  : result (list (list pyfloat)) :=
  map_result (fun nu => map_result (fun L_eff => phase nu L_eff c_m_per_s) L_eff_j_m) nu_i_hz.

(** ** Vocabulary of the properties, and inputs to run the code on *)

(** [f] is a finite frequency within the anchor tolerance of [target]. *)
Definition near (target : R) (f : pyfloat) : Prop :=
  exists r, f = Fin r /\ Rabs (r - target) <= anchor_tol.

(** A float that is not negative: what a sum of squares can be. *)
Definition nonneg (x : pyfloat) : Prop :=
  match x with
  | Fin r => 0 <= r
  | PInf | NaN => True
  | NInf => False
  end.

(** A 1x1 matrix to run the sampler on. *)
Definition M_1x1 : list (list complex) := [[(1, 0)]].

(** The two canonical anchors, one scale, unit reference frequency. *)
Definition anchors_nu : list pyfloat := [F_432; F_838_776].
Definition unit_a : list pyfloat := [Fin 1].

(** ** Vocabulary of the further properties *)

(** [x] is a finite float above zero. *)
Definition positive_finite (x : pyfloat) : Prop :=
  exists r, x = Fin r /\ 0 < r.

(** The value [ln((nu/nu0)*a) * exp(i*th)] of a cell, as a pair. *)
Definition mjlog_value (n0 nu a th : R) : complex :=
  (ln (nu / n0 * a) * cos th, ln (nu / n0 * a) * sin th).

(** A supplied phase matrix that [mjlog] accepts: [N] rows of [K] finite
    entries each. *)
Definition theta_well_formed (N K : nat) (theta_ij : option (list (list pyfloat))) : Prop :=
  match theta_ij with
  | None => True
  | Some rows =>
      length rows = N
      /\ Forall (fun row => length row = K /\ Forall (fun th => isfinite th = true) row) rows
  end.

(** The golden ratio and the ladder ratio [pi / pi_phi] as real numbers. *)
Definition phi_R : R := (1 + sqrt 5) / 2.
Definition ladder_ratio : R := PI / (4 / sqrt phi_R).

(** The phase [(2 pi nu / c) L] reduced modulo [2 pi]. *)
Definition phase_value (nu L c : R) : R :=
  2 * PI * nu / c * L - 2 * PI * IZR (Int_part (2 * PI * nu / c * L / (2 * PI))).

(** ** The binary64 model *)

Module B64.
Local Open Scope float_scope.

(** *** Floats *)

(** [math.pi] *)
Definition pi : float := 0x1.921fb54442d18p+1.

(** C's [copysign x s]: the magnitude of [x] with the sign of [s]. *)
Definition copysign (x s : float) : float :=
  if get_sign s then - abs x else abs x.

(** [x] is not below [a] and not above [b]: [a <= x <= b], or [x] is NaN. *)
Definition within (a b x : float) : Prop :=
  (x <? a) = false /\ (b <? x) = false.

(** A float of the specification that is not below zero: a NaN, a zero,
    or a float with the sign bit clear. *)
Definition sf_not_negative (s : spec_float) : Prop :=
  SFltb s (S754_zero false) = false.

(** The square of the finite float [x] is infinite. *)
Definition square_overflow (x : float) : bool :=
  is_finite x && is_infinity (x * x).

(** [x ** 2]: the rounded square; Python raises [OverflowError] when the
    square of a finite float overflows. *)
Definition pow2 (x : float) : result float :=
  if square_overflow x then Raise OverflowError else Ok (x * x).

(** [math.sqrt]: a "math domain error" on negative input. *)
Definition msqrt (x : float) : result float :=
  if x <? 0 then Raise (ValueError MathDomain) else Ok (PrimFloat.sqrt x).

(** [x / y]: Python raises [ZeroDivisionError] on a zero divisor. *)
Definition fdiv (x y : float) : result float :=
  if y =? 0 then Raise ZeroDivisionError else Ok (x / y).

(** [float(n)] for the [int] a [len] returns: correctly rounded. *)
Definition float_of_nat (n : nat) : float :=
  SF2Prim (binary_normalize prec emax (Z.of_nat n) 0 false).

(** C's [fmod x y]: the exact value [x - n*y], [n] being [x/y] truncated
    toward zero; it is representable and takes the sign of [x]. *)
Definition c_fmod (x y : float) : float :=
  match Prim2SF x, Prim2SF y with
  | S754_nan, _ | _, S754_nan => nan
  | S754_infinity _, _ => nan
  | _, S754_zero _ => nan
  | S754_zero _, _ => x
  | S754_finite _ _ _, S754_infinity _ => x
  | S754_finite sx mx ex, S754_finite _ my ey =>
      let e := Z.min ex ey in
      let r := Z.rem (Zpos mx * 2 ^ (ex - e)) (Zpos my * 2 ^ (ey - e)) in
      SF2Prim (binary_normalize prec emax (cond_Zopp sx r) e sx)
  end.

(** Python's [vx % wx] on floats: [fmod], moved by one [wx] when its sign
    differs from the sign of [wx]. *)
Definition float_rem (vx wx : float) : result float :=
  if wx =? 0 then Raise ZeroDivisionError
  else
    let m := c_fmod vx wx in
    if m =? 0 then Ok (copysign 0 wx)
    else if xorb (wx <? 0) (m <? 0) then Ok (m + wx) else Ok m.

(** *** The C library

    [exp], [cos], [sin], [hypot] and [atan2] are library code: they are
    parameters, with the two facts about their results that the properties
    rely on.  [cexp_special] is the table of special values of [cmath.exp]
    for an argument with a non-finite part. *)
Class LibM : Type := {
  exp : float -> float;
  cos : float -> float;
  sin : float -> float;
  hypot : float -> float -> float;
  atan2 : float -> float -> float;
  cexp_special : float * float -> result (float * float);
  hypot_not_negative : forall x y, (hypot x y <? 0) = false;
  atan2_range : forall y x, within (- pi) pi (atan2 y x)
}.

(** *** Complex numbers *)

Definition complex : Type := (float * float)%type.

(** A float operand of a complex operation becomes [complex(x, 0.0)]. *)
Definition of_float (x : float) : complex := (x, 0).
Definition c_1j : complex := (0, 1).

Definition c_sum (a b : complex) : complex := (fst a + fst b, snd a + snd b).
Definition c_diff (a b : complex) : complex := (fst a - fst b, snd a - snd b).
Definition c_prod (a b : complex) : complex :=
  (fst a * fst b - snd a * snd b, fst a * snd b + snd a * fst b).

Section Library.
Context `{LibM}.

(** [abs(z)]: [hypot] of the parts, [OverflowError] when finite parts give
    an infinite modulus. *)
Definition c_abs (z : complex) : result float :=
  let '(x, y) := z in
  if negb (is_finite x && is_finite y) then
    if is_infinity x then Ok (abs x)
    else if is_infinity y then Ok (abs y)
    else Ok nan
  else
    let r := hypot x y in
    if negb (is_finite r) then Raise OverflowError else Ok r.

(** [cmath.phase(z)]: [atan2(z.imag, z.real)], the cases of a NaN, infinite
    or zero part being decided before the library call. *)
Definition c_phase (z : complex) : float :=
  let '(x, y) := z in
  if is_nan x || is_nan y then nan
  else if is_infinity y then
    if is_infinity x then
      if copysign 1 x =? 1 then copysign (0.25 * pi) y
      else copysign (0.75 * pi) y
    else copysign (0.5 * pi) y
  else if is_infinity x || (y =? 0) then
    if copysign 1 x =? 1 then copysign 0 y
    else copysign pi y
  else atan2 y x.

(** [cmath.exp(z)] for a real part that needs no rescaling (in the source
    the argument is [1j*p], of real part zero or NaN). *)
Definition c_exp (z : complex) : result complex :=
  let '(x, y) := z in
  if negb (is_finite x && is_finite y) then cexp_special z
  else
    let l := exp x in
    let r := (l * cos y, l * sin y) in
    if is_infinity (fst r) || is_infinity (snd r) then Raise OverflowError
    else Ok r.

End Library.

(** *** phase.py *)

(** [d2 = 0.0; for a, b in zip(xi, x_star): d2 += (float(a) - float(b)) ** 2] *)
Fixpoint dist2_loop (d2 : float) (ab : list (float * float)) : result float :=
  match ab with
  | [] => Ok d2
  | (a, b) :: ab' => s <- pow2 (a - b) ;; dist2_loop (d2 + s) ab'
  end.

Definition dist2 (xi x_star : list float) : result float :=
  dist2_loop 0 (combine xi x_star).

(** Some squared coordinate difference of the row overflows. *)
Definition square_overflows (xi x_star : list float) : Prop :=
  Exists (fun p => square_overflow (fst p - snd p) = true) (combine xi x_star).

Fixpoint delays_loop (x_star : list float) (v : float) (X : list (list float))
  : result (list float) :=
  match X with
  | [] => Ok []
  | xi :: X' =>
      if negb (length xi =? length x_star)%nat
      then Raise (ValueError DimensionMismatch)
      else
        d2 <- dist2 xi x_star ;;
        d <- msqrt d2 ;;
        tau_i <- fdiv d v ;;
        tau <- delays_loop x_star v X' ;;
        Ok (tau_i :: tau)
  end.

Definition retarded_delays (X : list (list float)) (x_star : list float) (v : float)
  : result (list float) :=
  if v <=? 0 then Raise (ValueError SpeedNotPositive)
  else delays_loop x_star v X.

Definition retarded_phase_matrix (a_j tau_i : list float) (nu0_hz t : float)
    (psi_j : option (list float)) : result (list (list float)) :=
  let K := length a_j in
  let psi := match psi_j with None => repeat 0 K | Some xs => xs end in
  if negb (length psi =? K)%nat then Raise (ValueError PsiLength)
  else
    let Omega := map (fun aj => 2 * pi * nu0_hz * aj) a_j in
    Ok (map (fun tau => map (fun '(Om, ps) => Om * (t - tau) + ps) (combine Omega psi))
            tau_i).

(** *** core.py *)

(** [2.0 * math.sqrt(float(R_m) ** 2 + float(H_m) ** 2)] *)
Definition control_path_length (R_m H_m : float) : result float :=
  r2 <- pow2 R_m ;; h2 <- pow2 H_m ;; s <- msqrt (r2 + h2) ;; Ok (2 * s).

(** *** validation.py *)

Definition _wrap_pi (x : float) : result float :=
  r <- float_rem (x + pi) (2 * pi) ;; Ok (r - pi).

(** [random.Random]: an abstract state with the two methods the harness
    calls, [rng.sample(range(n), 2)], specified by its documented contract,
    and [rng.uniform(a, b)]. *)
Class RandomGen (G : Type) : Type := {
  rng_seed : Z -> G;
  rng_sample2 : nat -> G -> result (nat * nat * G);
  rng_uniform : float -> float -> G -> float * G;
  rng_sample2_small :
    forall n g, (n < 2)%nat -> rng_sample2 n g = Raise (ValueError SampleTooLarge);
  rng_sample2_distinct :
    forall n g, (2 <= n)%nat ->
      exists i1 i2 g', rng_sample2 n g = Ok (i1, i2, g')
                       /\ (i1 < n)%nat /\ (i2 < n)%nat /\ i1 <> i2
}.

Section Harness.
Context `{LibM} {G : Type} `{RandomGen G}.

Definition default_rng (rng : option G) : G :=
  match rng with
  | None => rng_seed 0%Z
  | Some g => g
  end.

(** [M[i][j]] *)
Definition cell (M : list (list complex)) (i j : nat) : result complex :=
  row <- getitem M i ;; getitem row j.

(** [M[i1][j1]*M[i2][j2] - M[i1][j2]*M[i2][j1]] *)
Definition minor_det (M : list (list complex)) (i1 i2 j1 j2 : nat) : result complex :=
  m11 <- cell M i1 j1 ;;
  m22 <- cell M i2 j2 ;;
  m12 <- cell M i1 j2 ;;
  m21 <- cell M i2 j1 ;;
  Ok (c_diff (c_prod m11 m22) (c_prod m12 m21)).



(** The body of the sampling loop, run [n] times. *)
Fixpoint sample_loop (M : list (list complex)) (N K n : nat)
    (mags phases : list float) (rng : G) : result (list float * list float * G) :=
  match n with
  | O => Ok (mags, phases, rng)
  | S n' =>
      '(i1, i2, rng1) <- rng_sample2 N rng ;;
      '(j1, j2, rng2) <- rng_sample2 K rng1 ;;
      d <- minor_det M i1 i2 j1 j2 ;;
      mag <- c_abs d ;;
      sample_loop M N K n' (mags ++ [mag]) (phases ++ [c_phase d]) rng2
  end.

(** Returns [(mags, phases)] and the generator state after the call. *)
Definition sample_minors (M : list (list complex)) (n_samples : Z) (rng : option G)
  : result (list float * list float * G) :=
  let N := length M in
  let K := ncols M in
  sample_loop M N K (Z.to_nat n_samples) [] [] (default_rng rng).

(** [mag * cmath.exp(1j*ph)] *)
Definition scrambled (mag ph : float) : result complex :=
  w <- c_exp (c_prod c_1j (of_float ph)) ;; Ok (c_prod (of_float mag) w).

(** [z'] is [abs(z) * cmath.exp(1j*ph)] for some float [ph]. *)
Definition scrambled_from (z z' : complex) : Prop :=
  exists mag ph, c_abs z = Ok mag /\ scrambled mag ph = Ok z'.

Fixpoint scramble_row (row : list complex) (rng : G) : result (list complex * G) :=
  match row with
  | [] => Ok ([], rng)
  | z :: row' =>
      mag <- c_abs z ;;
      let '(ph, rng1) := rng_uniform (- pi) pi rng in
      z' <- scrambled mag ph ;;
      '(out_row, rng2) <- scramble_row row' rng1 ;;
      Ok (z' :: out_row, rng2)
  end.

(** What makes the scramble raise: [abs] overflows on a cell, or
    [cmath.exp] raises on a drawn phase. *)
Definition scramble_raises (M : list (list complex)) : Prop :=
  Exists (Exists (fun z => c_abs z = Raise OverflowError)) M
  \/ exists mag ph, raises (scrambled mag ph).

Fixpoint scramble_rows (M : list (list complex)) (rng : G)
  : result (list (list complex) * G) :=
  match M with
  | [] => Ok ([], rng)
  | row :: M' =>
      '(out_row, rng1) <- scramble_row row rng ;;
      '(out, rng2) <- scramble_rows M' rng1 ;;
      Ok (out_row :: out, rng2)
  end.

(** Returns the scrambled matrix and the generator state after the call. *)
Definition phase_scramble (M : list (list complex)) (rng : option G)
  : result (list (list complex) * G) :=
  scramble_rows M (default_rng rng).

End Harness.

Section Statistic.
Context `{LibM}.

(** [sum(cmath.exp(1j*float(p)) for p in phases)], added from the left
    starting at [0]. *)
Fixpoint resultant (s : complex) (phases : list float) : result complex :=
  match phases with
  | [] => Ok s
  | p :: phases' =>
      w <- c_exp (c_prod c_1j (of_float p)) ;; resultant (c_sum s w) phases'
  end.

Definition mean_resultant_length (phases : list float) : result float :=
  s <- resultant (0, 0) phases ;;
  match phases with
  | [] => Ok 0
  | _ => r <- c_abs s ;; fdiv r (float_of_nat (length phases))
  end.

End Statistic.

(** *** Inputs to run the code on *)

(** The C library at the arguments of the examples (glibc, x86-64).  By
    the C standard [exp] of a zero is [1] and [hypot] with a zero part is
    the magnitude of the other part; [cos] and [sin] are recorded at [1.0]
    and at [pi/3] (the float [0x1.0c152382d7365p+0]), [hypot] at the two
    sums the examples form.  An argument that is not recorded answers
    NaN. *)
Definition at_point (x a v : float) (otherwise : float) : float :=
  if Leibniz.eqb x a then v else otherwise.

Definition table_exp (x : float) : float := if x =? 0 then 1 else nan.

Definition table_cos (x : float) : float :=
  at_point x 1 0x1.14a280fb5068cp-1
    (at_point x 0x1.0c152382d7365p+0 0x1.0000000000001p-1 nan).

Definition table_sin (x : float) : float :=
  at_point x 1 0x1.aed548f090ceep-1
    (at_point x 0x1.0c152382d7365p+0 0x1.bb67ae8584caap-1 nan).

Definition table_hypot (x y : float) : float :=
  if y =? 0 then abs x
  else if x =? 0 then abs y
  else if Leibniz.eqb x 0x1.9ef3c178f89d2p+0 && Leibniz.eqb y 0x1.431ff6b46c9b2p+1
       then 0x1.8p+1
  else if Leibniz.eqb x 0x1.8000000000002p+0 && Leibniz.eqb y 0x1.4c8dc2e42398p+1
       then 0x1.8000000000001p+1
  else nan.

Definition table_atan2 (y x : float) : float := nan.

Definition table_cexp_special (z : float * float) : result (float * float) :=
  Ok (nan, nan).

(** A generator that replays a script: [sample] counts as the counter
    generator does, [uniform] returns the next scripted value ([a] once
    the script is used up). *)
Definition script_sample2 (n : nat) (g : nat * list float)
  : result (nat * nat * (nat * list float)) :=
  '(i1, i2, c) <- counter_sample2 n (fst g) ;; Ok (i1, i2, (c, snd g)).

Definition script_uniform (a b : float) (g : nat * list float)
  : float * (nat * list float) :=
  match snd g with
  | [] => (a, g)
  | x :: s => (x, (fst g, s))
  end.


End B64.

(** * Properties *)

(** ** Deciding comparisons of reals *)

Lemma Rleb_true (x y : R) : Rleb x y = true <-> x <= y.
Proof. unfold Rleb; destruct (Rle_dec x y); split; intros; try easy. Qed.

Lemma Rleb_false (x y : R) : Rleb x y = false <-> y < x.
Proof. unfold Rleb; destruct (Rle_dec x y); split; intros; try easy; lra. Qed.

Lemma Rltb_true (x y : R) : Rltb x y = true <-> x < y.
Proof. unfold Rltb; destruct (Rlt_dec x y); split; intros; try easy. Qed.

Lemma Rltb_false (x y : R) : Rltb x y = false <-> y <= x.
Proof. unfold Rltb; destruct (Rlt_dec x y); split; intros; try easy; lra. Qed.

Lemma Reqb_true (x y : R) : Reqb x y = true <-> x = y.
Proof. unfold Reqb; destruct (Req_dec_T x y); split; intros; try easy. Qed.

Lemma Reqb_false (x y : R) : Reqb x y = false <-> x <> y.
Proof. unfold Reqb; destruct (Req_dec_T x y); split; intros; try easy. Qed.

(** Rewrites a comparison on concrete reals to its value, leaving the
    inequality to [lra]. *)
Ltac decide_R :=
  repeat match goal with
  | |- context [Rleb ?x ?y] =>
      first [ replace (Rleb x y) with true by (symmetry; apply Rleb_true; lra)
            | replace (Rleb x y) with false by (symmetry; apply Rleb_false; lra) ]
  | |- context [Rltb ?x ?y] =>
      first [ replace (Rltb x y) with true by (symmetry; apply Rltb_true; lra)
            | replace (Rltb x y) with false by (symmetry; apply Rltb_false; lra) ]
  | |- context [Reqb ?x ?y] =>
      first [ replace (Reqb x y) with true by (symmetry; apply Reqb_true; lra)
            | replace (Reqb x y) with false by (symmetry; apply Reqb_false; lra) ]
  end.

(** ** Angular wrapping *)

Lemma two_PI_nonzero : Reqb (2 * PI) 0 = false.
Proof. apply Reqb_false. pose proof PI_RGT_0. lra. Qed.

Lemma wrap_pi_value (x : R) :
  _wrap_pi x = Ok (x + PI - 2 * PI * IZR (Int_part ((x + PI) / (2 * PI))) - PI).
Proof. unfold _wrap_pi, py_mod. rewrite two_PI_nonzero. reflexivity. Qed.



(** ** The circular statistic *)

Lemma Cexp_i (p : R) : Cexp (Cmul Ci (RtoC p)) = (cos p, sin p).
Proof.
  unfold Cexp, Cmul, Ci, RtoC; simpl.
  replace (0 * p - 1 * 0) with 0 by ring.
  replace (0 * 0 + 1 * p) with p by ring.
  rewrite exp_0. f_equal; ring.
Qed.

Lemma Cabs_nonneg (z : complex) : 0 <= Cabs z.
Proof. apply sqrt_pos. Qed.

Lemma Cabs_mul (z w : complex) : Cabs (Cmul z w) = Cabs z * Cabs w.
Proof.
  unfold Cabs, Cmul; destruct z as [a b], w as [c d]; simpl.
  rewrite <- sqrt_mult by nra.
  f_equal. ring.
Qed.

Lemma Cabs_unit (p : R) : Cabs (cos p, sin p) = 1.
Proof.
  unfold Cabs; simpl.
  pose proof (sin2_cos2 p) as H. unfold Rsqr in H.
  replace (cos p * cos p + sin p * sin p) with 1 by lra.
  apply sqrt_1.
Qed.

Lemma Cmul_Cadd_distr (r z w : complex) : Cmul r (Cadd z w) = Cadd (Cmul r z) (Cmul r w).
Proof. unfold Cmul, Cadd; simpl. f_equal; ring. Qed.

Lemma unit_shift (p c : R) : (cos (p + c), sin (p + c)) = Cmul (cos c, sin c) (cos p, sin p).
Proof. unfold Cmul; simpl. rewrite cos_plus, sin_plus. f_equal; ring. Qed.

Lemma resultant_shift_acc (c : R) (ps : list R) (acc : complex) :
  fold_left Cadd (map (fun p => Cexp (Cmul Ci (RtoC p))) (map (fun p => p + c) ps))
            (Cmul (cos c, sin c) acc)
  = Cmul (cos c, sin c)
         (fold_left Cadd (map (fun p => Cexp (Cmul Ci (RtoC p))) ps) acc).
Proof.
  revert acc; induction ps as [| p ps IH]; intros acc; simpl; [reflexivity |].
  rewrite !Cexp_i, unit_shift, <- Cmul_Cadd_distr. apply IH.
Qed.

(** Adding [c] to every phase rotates the resultant by [c]. *)
Lemma resultant_shift (c : R) (ps : list R) :
  resultant (map (fun p => p + c) ps) = Cmul (cos c, sin c) (resultant ps).
Proof.
  unfold resultant. rewrite <- resultant_shift_acc.
  f_equal. unfold Cmul, C0; simpl. f_equal; ring.
Qed.

(** C7 (amended): in exact arithmetic, adding a constant offset [c] to
    every phase of [ps] leaves [mean_resultant_length] unchanged. *)
Theorem mean_resultant_length_shift (ps : list R) (c : R) :
  mean_resultant_length (map (fun p => p + c) ps) = mean_resultant_length ps.
Proof.
  destruct ps as [| p ps]; [reflexivity |].
  unfold mean_resultant_length.
  change (map (fun p0 => p0 + c) (p :: ps)) with (p + c :: map (fun p0 => p0 + c) ps) at 1.
  cbv iota.
  change (p + c :: map (fun p0 => p0 + c) ps) with (map (fun p0 => p0 + c) (p :: ps)).
  rewrite resultant_shift, Cabs_mul, Cabs_unit, length_map. f_equal. ring.
Qed.

(** ** The counter generator meets the generator contract *)

Lemma counter_sample2_small (n g : nat) :
  (n < 2)%nat -> counter_sample2 n g = Raise (ValueError SampleTooLarge).
Proof.
  intros Hn. unfold counter_sample2.
  destruct (Nat.ltb_spec n 2); [reflexivity | lia].
Qed.

Lemma counter_sample2_distinct (n g : nat) :
  (2 <= n)%nat ->
  exists i1 i2 g', counter_sample2 n g = Ok (i1, i2, g')
                   /\ (i1 < n)%nat /\ (i2 < n)%nat /\ i1 <> i2.
Proof.
  intros Hn. unfold counter_sample2.
  destruct (Nat.ltb_spec n 2); [lia |].
  assert (Hi : (g mod n < n)%nat) by (apply Nat.mod_upper_bound; lia).
  generalize dependent (g mod n)%nat. intros i Hi.
  exists i, ((i + 1) mod n)%nat, (S g).
  repeat split; trivial.
  - apply Nat.mod_upper_bound; lia.
  - destruct (Nat.eq_dec (i + 1) n) as [E | E].
    + rewrite E, Nat.Div0.mod_same. lia.
    + rewrite Nat.mod_small by lia. lia.
Qed.

Lemma counter_uniform_range (a b : R) (g : nat) :
  a <= b -> a <= fst (counter_uniform a b g) <= b.
Proof. intros Hab. unfold counter_uniform; simpl. lra. Qed.

#[export] Instance counter_rng : RandomGen nat := {|
  rng_seed := Z.to_nat;
  rng_sample2 := counter_sample2;
  rng_uniform := counter_uniform;
  rng_sample2_small := counter_sample2_small;
  rng_sample2_distinct := counter_sample2_distinct;
  rng_uniform_range := counter_uniform_range
|}.

(** ** Phase scrambling *)

Lemma Cabs_RtoC (m : R) : 0 <= m -> Cabs (RtoC m) = m.
Proof.
  intros Hm. unfold Cabs, RtoC; simpl.
  replace (m * m + 0 * 0) with (m * m) by ring.
  apply sqrt_square, Hm.
Qed.

(** The cell written by the scramble has the magnitude it was built from. *)
Lemma scrambled_cell_abs (z : complex) (ph : R) :
  Cabs (Cmul (RtoC (Cabs z)) (Cexp (Cmul Ci (RtoC ph)))) = Cabs z.
Proof.
  rewrite Cabs_mul, Cexp_i, Cabs_unit, Cabs_RtoC by apply Cabs_nonneg. ring.
Qed.

Lemma cell_map_inv {A B : Type} (f : A -> B) (M M' : list (list A)) (i j : nat) :
  map (map f) M' = map (map f) M ->
  forall row x, nth_error M i = Some row -> nth_error row j = Some x ->
  exists row' x', nth_error M' i = Some row' /\ nth_error row' j = Some x' /\ f x' = f x.
Proof.
  intros E row x Hrow Hx.
  assert (Hi : nth_error (map (map f) M') i = Some (map f row)).
  { rewrite E, nth_error_map, Hrow. reflexivity. }
  rewrite nth_error_map in Hi.
  destruct (nth_error M' i) as [row' |] eqn:Hrow'; [| discriminate].
  simpl in Hi. injection Hi as Hi.
  assert (Hj : nth_error (map f row') j = Some (f x)).
  { rewrite Hi, nth_error_map, Hx. reflexivity. }
  rewrite nth_error_map in Hj.
  destruct (nth_error row' j) as [x' |] eqn:Hx'; [| discriminate].
  simpl in Hj. injection Hj as Hj.
  exists row', x'. auto.
Qed.

Lemma cell_Ok (M : list (list complex)) (i j : nat) (z : complex) :
  cell M i j = Ok z <->
  exists row, nth_error M i = Some row /\ nth_error row j = Some z.
Proof.
  unfold cell, getitem, bind. split.
  - destruct (nth_error M i) as [row |]; [| discriminate].
    destruct (nth_error row j) as [x |] eqn:Hx; [| discriminate].
    intros E; injection E as ->. eauto.
  - intros (row & -> & ->). reflexivity.
Qed.

Section Scramble.
Context {G : Type} `{RandomGen G}.

Lemma scramble_row_abs (row : list complex) (rng : G) :
  map Cabs (fst (scramble_row row rng)) = map Cabs row.
Proof.
  revert rng; induction row as [| z row IH]; intros rng; simpl; [reflexivity |].
  destruct (rng_uniform (- PI) PI rng) as [ph rng1].
  specialize (IH rng1).
  destruct (scramble_row row rng1) as [out_row rng2]; simpl in *.
  rewrite scrambled_cell_abs, IH. reflexivity.
Qed.

Lemma scramble_rows_abs (M : list (list complex)) (rng : G) :
  map (map Cabs) (fst (scramble_rows M rng)) = map (map Cabs) M.
Proof.
  revert rng; induction M as [| row M IH]; intros rng; simpl; [reflexivity |].
  pose proof (scramble_row_abs row rng) as Hrow.
  destruct (scramble_row row rng) as [out_row rng1].
  specialize (IH rng1).
  destruct (scramble_rows M rng1) as [out rng2]; simpl in *.
  rewrite Hrow, IH. reflexivity.
Qed.

(** On real numbers the scrambled matrix has the shape of [M] (as many
    rows, each of the same length), and every cell keeps its magnitude:
    [|M'[i][j]| = |M[i][j]|]. *)
Lemma phase_scramble_exact (M : list (list complex)) (rng : option G) :
  let M' := fst (phase_scramble M rng) in
  map (@length complex) M' = map (@length complex) M
  /\ forall i j z, cell M i j = Ok z ->
       exists z', cell M' i j = Ok z' /\ Cabs z' = Cabs z.
Proof.
  intros M'.
  assert (E : map (map Cabs) M' = map (map Cabs) M)
    by apply scramble_rows_abs.
  split.
  - apply (f_equal (map (@length R))) in E.
    rewrite !map_map in E.
    erewrite map_ext in E by (intros; apply length_map).
    symmetry in E.
    erewrite map_ext in E by (intros; apply length_map).
    symmetry; exact E.
  - intros i j z Hz. apply cell_Ok in Hz as (row & Hrow & Hx).
    destruct (cell_map_inv Cabs M M' i j E row z Hrow Hx) as (row' & z' & H1 & H2 & H3).
    exists z'. split; [| exact H3].
    apply cell_Ok. eauto.
Qed.

End Scramble.

(** ** Minor sampling *)

Section Sampling.
Context {G : Type} `{RandomGen G}.

(** C4 (amended): on a matrix with fewer than 2 rows or fewer than 2
    columns, [sample_minors] raises the [ValueError] of [random.sample]
    for every sample count [S >= 1]; for [S <= 0] no index is drawn and
    it returns two empty sequences, leaving the generator untouched. *)
Theorem sample_minors_too_small (M : list (list complex)) (S : Z) (rng : option G) :
  (length M < 2)%nat \/ (ncols M < 2)%nat ->
  ((1 <= S)%Z -> sample_minors M S rng = Raise (ValueError SampleTooLarge))
  /\ ((S <= 0)%Z -> sample_minors M S rng = Ok ([], [], default_rng rng)).
Proof.
  intros Hsmall. unfold sample_minors. split; intros HS.
  - destruct (Z.to_nat S) as [| n] eqn:En; [lia |]. simpl.
    destruct (Nat.lt_ge_cases (length M) 2) as [HN | HN].
    + rewrite rng_sample2_small by exact HN. reflexivity.
    + destruct Hsmall as [Hs | HK]; [lia |].
      destruct (rng_sample2_distinct (length M) (default_rng rng) HN)
        as (i1 & i2 & rng1 & -> & _).
      simpl. rewrite rng_sample2_small by exact HK. reflexivity.
  - replace (Z.to_nat S) with 0%nat by lia. reflexivity.
Qed.

End Sampling.

(** C4, as stated, fails: with a sample count of 0 the call on a 1x1
    matrix returns (two empty sequences) instead of raising. *)
Lemma sample_minors_1x1_no_samples :
  (length M_1x1 < 2)%nat
  /\ sample_minors M_1x1 0 (Some 0%nat) = Ok ([], [], 0%nat)
  /\ ~ raises (sample_minors M_1x1 0 (Some 0%nat)).
Proof.
  split; [simpl; lia |].
  split; [reflexivity |].
  intros [e He]. discriminate He.
Qed.

Lemma sample_minors_too_small_witness :
  ((length M_1x1 < 2)%nat \/ (ncols M_1x1 < 2)%nat)
  /\ (1 <= 5)%Z
  /\ sample_minors M_1x1 5 (Some 0%nat) = Raise (ValueError SampleTooLarge).
Proof.
  split; [left; simpl; lia |].
  split; [lia |].
  apply (sample_minors_too_small M_1x1 5 (Some 0%nat)); [left; simpl; lia | lia].
Defined.

(** ** Gates *)

Lemma within_tol_near (target : R) (f : pyfloat) :
  fle (fabs (fsub f (Fin target))) ANCHOR_TOL_HZ = true <-> near target f.
Proof.
  unfold near. destruct f as [r | | |]; simpl.
  - rewrite Rleb_true. split.
    + intros Hr. exists r. split; [reflexivity | exact Hr].
    + intros (r' & E & Hr). injection E as <-. exact Hr.
  - split; [discriminate | intros (r & E & _); discriminate].
  - split; [discriminate | intros (r & E & _); discriminate].
  - split; [discriminate | intros (r & E & _); discriminate].
Qed.

Lemma has_anchor_spec (freqs_hz : list pyfloat) (target : R) :
  has_anchor freqs_hz (Fin target) = true <-> Exists (near target) freqs_hz.
Proof.
  unfold has_anchor, has_anchor_tol.
  rewrite existsb_exists, Exists_exists.
  split; intros (f & Hin & Hf); exists f; split; trivial;
    apply within_tol_near; exact Hf.
Qed.

Lemma first_bad_None (xs : list pyfloat) (i : nat) :
  first_bad i xs = None <-> Forall (fun x => _is_pos_finite x = true) xs.
Proof.
  revert i; induction xs as [| x xs IH]; intros i; simpl.
  - split; [constructor | reflexivity].
  - destruct (_is_pos_finite x) eqn:Hx; simpl.
    + rewrite IH. split; [constructor; assumption | intros HF; inversion HF; assumption].
    + split; [discriminate | intros HF; inversion HF; congruence].
Qed.

(** What it takes for gate 11 to report [eligible=True]. *)
Lemma gate_11_eligible (nu_i_hz a_j : list pyfloat) (nu0_hz : pyfloat)
    (require_432 require_838 : bool) :
  eligible (gate_11 nu_i_hz a_j nu0_hz require_432 require_838) = true <->
  _is_pos_finite nu0_hz = true
  /\ nu_i_hz <> [] /\ a_j <> []
  /\ Forall (fun x => _is_pos_finite x = true) nu_i_hz
  /\ Forall (fun x => _is_pos_finite x = true) a_j
  /\ (require_432 = true -> has_anchor nu_i_hz F_432 = true)
  /\ (require_838 = true -> has_anchor nu_i_hz F_838_776 = true).
Proof.
  unfold gate_11.
  destruct (_is_pos_finite nu0_hz); cbn [negb];
    [| split; [discriminate | intros (E & _); discriminate]].
  destruct (Nat.eqb_spec (length nu_i_hz) 0) as [En | En].
  { apply length_zero_iff_nil in En.
    split; [discriminate | intros (_ & E & _); congruence]. }
  destruct (Nat.eqb_spec (length a_j) 0) as [Ea | Ea].
  { apply length_zero_iff_nil in Ea.
    split; [discriminate | intros (_ & _ & E & _); congruence]. }
  assert (Hn : nu_i_hz <> []) by (intros ->; apply En; reflexivity).
  assert (Ha : a_j <> []) by (intros ->; apply Ea; reflexivity).
  pose proof (first_bad_None nu_i_hz 0) as Hnu.
  destruct (first_bad 0 nu_i_hz) as [[i x] |].
  { split; [discriminate |].
    intros (_ & _ & _ & HF & _). apply Hnu in HF. discriminate. }
  pose proof (first_bad_None a_j 0) as Haj.
  destruct (first_bad 0 a_j) as [[j x] |].
  { split; [discriminate |].
    intros (_ & _ & _ & _ & HF & _). apply Haj in HF. discriminate. }
  assert (HFnu : Forall (fun x => _is_pos_finite x = true) nu_i_hz)
    by (apply Hnu; reflexivity).
  assert (HFa : Forall (fun x => _is_pos_finite x = true) a_j)
    by (apply Haj; reflexivity).
  cbv zeta.
  destruct require_432, require_838,
    (has_anchor nu_i_hz F_432), (has_anchor nu_i_hz F_838_776); cbn;
    (split;
     [ first [discriminate | intros _; repeat split; auto; discriminate]
     | first [reflexivity
             | intros (_ & _ & _ & _ & _ & H1 & H2);
               first [ specialize (H1 eq_refl); discriminate
                     | specialize (H2 eq_refl); discriminate ] ] ]).
Qed.

(** The two invariants gate 22 recomputes are positive and finite. *)
Lemma golden_pi_PHI :
  exists r, golden_pi PHI = Ok (Fin r) /\ 0 < r.
Proof.
  pose proof (sqrt_pos 5) as H5.
  assert (Hphi : 0 < (1 + sqrt 5) / 2) by lra.
  pose proof (sqrt_lt_R0 _ Hphi) as Hs.
  exists (4 / sqrt ((1 + sqrt 5) / 2)).
  unfold golden_pi, PHI, fsqrt, bind. decide_R.
  unfold fdiv. decide_R.
  split; [reflexivity |].
  apply Rdiv_lt_0_compat; lra.
Qed.

Lemma bridge_frequency_locked :
  exists r, bridge_frequency F_432 PI_f PHI = Ok (Fin r) /\ 0 < r.
Proof.
  pose proof (sqrt_pos 5) as H5.
  pose proof PI_RGT_0 as HPI.
  assert (Hphi : 0 < (1 + sqrt 5) / 2) by lra.
  exists (432 * (PI / ((1 + sqrt 5) / 2))).
  unfold bridge_frequency, F_432, PI_f, PHI, fdiv, bind. decide_R.
  split; [reflexivity |].
  apply Rmult_lt_0_compat; [lra | apply Rdiv_lt_0_compat; lra].
Qed.

Lemma is_pos_finite_Fin (r : R) : 0 < r -> _is_pos_finite (Fin r) = true.
Proof. intros Hr. unfold _is_pos_finite; simpl. apply Rltb_true, Hr. Qed.

(** Gate 22 never raises, and passes exactly when gate 11 does. *)
Lemma gate_22_eligible (nu_i_hz a_j : list pyfloat) (nu0_hz : pyfloat) :
  exists g, gate_22 nu_i_hz a_j nu0_hz = Ok g
            /\ eligible g = eligible (gate_11 nu_i_hz a_j nu0_hz false false).
Proof.
  unfold gate_22.
  destruct (eligible (gate_11 nu_i_hz a_j nu0_hz false false)); simpl.
  - destruct golden_pi_PHI as (p & -> & Hp).
    destruct bridge_frequency_locked as (b & -> & Hb).
    simpl. rewrite !is_pos_finite_Fin by assumption. simpl.
    eexists; split; reflexivity.
  - eexists; split; reflexivity.
Qed.

(** C3: whenever gate 44 reports [eligible=True], gate 22 and gate 11
    (default options) report [eligible=True] on the same inputs. *)
Theorem gate_chain_monotone (nu_i_hz a_j : list pyfloat) (nu0_hz : pyfloat) :
  reports_eligible (gate_44 nu_i_hz a_j nu0_hz) ->
  reports_eligible (gate_22 nu_i_hz a_j nu0_hz)
  /\ eligible (gate_11 nu_i_hz a_j nu0_hz false false) = true.
Proof.
  intros (g44 & E44 & Hel).
  unfold gate_44 in E44.
  destruct (eligible (gate_11 nu_i_hz a_j nu0_hz true true)); simpl in E44;
    [| injection E44 as <-; discriminate Hel].
  destruct (gate_22 nu_i_hz a_j nu0_hz) as [g22 | e] eqn:E22; simpl in E44;
    [| discriminate E44].
  destruct (eligible g22) eqn:Hel22; simpl in E44;
    [| injection E44 as <-; discriminate Hel].
  split; [exists g22; auto |].
  unfold gate_22 in E22.
  destruct (eligible (gate_11 nu_i_hz a_j nu0_hz false false)); [reflexivity |].
  simpl in E22. injection E22 as <-. discriminate Hel22.
Qed.

(** An eligible gate 44 has seen both anchors. *)
Lemma gate_44_eligible_anchors (nu_i_hz a_j : list pyfloat) (nu0_hz : pyfloat) :
  reports_eligible (gate_44 nu_i_hz a_j nu0_hz) ->
  Exists (near 432) nu_i_hz /\ Exists (near f_838_776) nu_i_hz.
Proof.
  intros (g & E & Hel). unfold gate_44 in E.
  destruct (eligible (gate_11 nu_i_hz a_j nu0_hz true true)) eqn:E11; simpl in E;
    [| injection E as <-; discriminate Hel].
  apply gate_11_eligible in E11 as (_ & _ & _ & _ & _ & H432 & H838).
  split; apply has_anchor_spec; auto.
Qed.

(** C9: when the frequency sequence lacks a value within [ANCHOR_TOL_HZ]
    of 432.0 or lacks a value within [ANCHOR_TOL_HZ] of [F_838_776] (the
    floats that the literals [1e-3] and [838.776] denote), gate 44 returns
    a record with [eligible=False]; so [eligible=True] needs both
    anchors. *)
Theorem gate_44_requires_anchors (nu_i_hz a_j : list pyfloat) (nu0_hz : pyfloat) :
  ~ (Exists (near 432) nu_i_hz /\ Exists (near f_838_776) nu_i_hz) ->
  exists g, gate_44 nu_i_hz a_j nu0_hz = Ok g /\ eligible g = false.
Proof.
  intros Hlack. unfold gate_44.
  destruct (eligible (gate_11 nu_i_hz a_j nu0_hz true true)) eqn:E11; simpl.
  - exfalso. apply Hlack.
    apply gate_11_eligible in E11 as (_ & _ & _ & _ & _ & H432 & H838).
    split; apply has_anchor_spec; auto.
  - eexists; split; reflexivity.
Qed.

(** Gate 44 passes as soon as gate 11 passes with both anchors required. *)
Lemma gate_44_passes (nu_i_hz a_j : list pyfloat) (nu0_hz : pyfloat) :
  eligible (gate_11 nu_i_hz a_j nu0_hz true true) = true ->
  reports_eligible (gate_44 nu_i_hz a_j nu0_hz).
Proof.
  intros E11. unfold reports_eligible, gate_44. rewrite E11. simpl.
  destruct (gate_22_eligible nu_i_hz a_j nu0_hz) as (g22 & -> & E22).
  assert (Hdef : eligible (gate_11 nu_i_hz a_j nu0_hz false false) = true).
  { apply gate_11_eligible.
    apply gate_11_eligible in E11 as (H0 & H1 & H2 & H3 & H4 & _).
    repeat split; auto; discriminate. }
  rewrite Hdef in E22. simpl. rewrite E22. simpl.
  eexists; split; reflexivity.
Qed.

Lemma near_self (target : R) : near target (Fin target).
Proof.
  exists target. split; [reflexivity |].
  replace (target - target) with 0 by ring. rewrite Rabs_R0.
  unfold anchor_tol. lra.
Qed.

Lemma gate_44_on_anchors : reports_eligible (gate_44 anchors_nu unit_a (Fin 1)).
Proof.
  apply gate_44_passes, gate_11_eligible.
  assert (H1 : _is_pos_finite (Fin 1) = true) by (apply is_pos_finite_Fin; lra).
  repeat split; try discriminate; trivial.
  - repeat constructor; apply is_pos_finite_Fin; unfold f_838_776; lra.
  - repeat constructor; exact H1.
  - intros _. apply (has_anchor_spec anchors_nu 432).
    left. apply near_self.
  - intros _. apply (has_anchor_spec anchors_nu f_838_776).
    right. left. apply near_self.
Qed.

(** The float [838.775] is within the tolerance of the anchor: gate 44
    passes on the frequencies [[432.0, 838.775]]. *)
Lemma gate_44_at_tolerance_edge :
  near f_838_776 (Fin (7377942924702515 / 8796093022208))
  /\ reports_eligible
       (gate_44 [Fin 432; Fin (7377942924702515 / 8796093022208)] unit_a (Fin 1)).
Proof.
  assert (Hn : near f_838_776 (Fin (7377942924702515 / 8796093022208))).
  { eexists. split; [reflexivity |].
    unfold f_838_776, anchor_tol. rewrite Rabs_left by lra. lra. }
  split; [exact Hn |].
  apply gate_44_passes, gate_11_eligible.
  assert (H1 : _is_pos_finite (Fin 1) = true) by (apply is_pos_finite_Fin; lra).
  repeat split; try discriminate; trivial.
  - repeat constructor; apply is_pos_finite_Fin; lra.
  - repeat constructor; exact H1.
  - intros _. apply (has_anchor_spec _ 432). left. apply near_self.
  - intros _. apply (has_anchor_spec _ f_838_776). right. left. exact Hn.
Qed.

Lemma gate_chain_monotone_witness :
  reports_eligible (gate_44 anchors_nu unit_a (Fin 1))
  /\ reports_eligible (gate_22 anchors_nu unit_a (Fin 1))
  /\ eligible (gate_11 anchors_nu unit_a (Fin 1) false false) = true.
Proof.
  split; [exact gate_44_on_anchors |].
  apply (gate_chain_monotone anchors_nu unit_a (Fin 1)).
  exact gate_44_on_anchors.
Defined.

Lemma no_anchor_in_unit : ~ (Exists (near 432) unit_a /\ Exists (near f_838_776) unit_a).
Proof.
  intros [H _]. unfold unit_a in H.
  inversion H as [x l (r & E & Hr) | x l Hl]; subst.
  - injection E as <-.
    rewrite Rabs_left in Hr by lra. unfold anchor_tol in Hr. lra.
  - inversion Hl.
Qed.

Lemma gate_44_requires_anchors_witness :
  ~ (Exists (near 432) unit_a /\ Exists (near f_838_776) unit_a)
  /\ exists g, gate_44 unit_a unit_a (Fin 1) = Ok g /\ eligible g = false.
Proof.
  split; [exact no_anchor_in_unit |].
  apply (gate_44_requires_anchors unit_a unit_a (Fin 1)).
  exact no_anchor_in_unit.
Defined.

(** ** Matrix construction *)

Lemma check_entries_Ok (nf np : nat -> value_error) (xs : list pyfloat) (i : nat) :
  check_entries nf np i xs = Ok tt ->
  Forall (fun x => exists r, x = Fin r /\ 0 < r) xs.
Proof.
  revert i; induction xs as [| x xs IH]; intros i; simpl; [constructor |].
  destruct x as [r | | |]; simpl; try discriminate.
  destruct (Rleb r 0) eqn:Hr; [discriminate |].
  intros E. constructor; [| eapply IH; exact E].
  exists r. split; [reflexivity |]. apply Rleb_false, Hr.
Qed.

Lemma check_entries_error (nf np : nat -> value_error) (xs : list pyfloat) (i : nat) (e : exn) :
  check_entries nf np i xs = Raise e -> exists v, e = ValueError v.
Proof.
  revert i; induction xs as [| x xs IH]; intros i; simpl; [discriminate |].
  destruct (isfinite x); simpl; [| intros E; injection E as <-; eauto].
  destruct (fle x (Fin 0)); [intros E; injection E as <-; eauto |].
  apply IH.
Qed.

Lemma theta_row_shape (i : nat) (row : list pyfloat) (j : nat) :
  match theta_row i j row with
  | Ok row_f => length row_f = length row
  | Raise e => exists v, e = ValueError v
  end.
Proof.
  revert j; induction row as [| th row IH]; intros j; simpl; [reflexivity |].
  destruct th; eauto.
  specialize (IH (S j)). destruct (theta_row i (S j) row); simpl; [lia | exact IH].
Qed.

Lemma theta_rows_shape (K : nat) (rows : list (list pyfloat)) (i : nat) :
  match theta_rows K i rows with
  | Ok theta => length theta = length rows /\ Forall (fun r => length r = K) theta
  | Raise e => exists v, e = ValueError v
  end.
Proof.
  revert i; induction rows as [| row rows IH]; intros i; simpl; [auto |].
  destruct (Nat.eqb_spec (length row) K) as [EK | EK]; simpl; [| eauto].
  pose proof (theta_row_shape i row 0) as Hrow.
  destruct (theta_row i 0 row) as [row_f | e]; simpl; [| exact Hrow].
  specialize (IH (S i)).
  destruct (theta_rows K (S i) rows) as [theta | e]; simpl; [| exact IH].
  destruct IH as [Hl HF]. split; [lia |].
  constructor; [lia | exact HF].
Qed.

Lemma theta_of_shape (N K : nat) (theta_ij : option (list (list pyfloat))) :
  match theta_of N K theta_ij with
  | Ok theta => length theta = N /\ Forall (fun r => length r = K) theta
  | Raise e => exists v, e = ValueError v
  end.
Proof.
  destruct theta_ij as [rows |]; simpl.
  - destruct (Nat.eqb_spec (length rows) N) as [EN | EN]; simpl; [| eauto].
    pose proof (theta_rows_shape K rows 0) as Hs.
    destruct (theta_rows K 0 rows); [| exact Hs].
    destruct Hs as [Hl HF]. split; [lia | exact HF].
  - split; [apply repeat_length |].
    apply Forall_forall. intros r Hr.
    apply repeat_spec in Hr. subst r. apply repeat_length.
Qed.

(** With a positive finite reference frequency the quotient [nu / nu0_f]
    is computed without error. *)
Lemma log_argument_total (nu aj : pyfloat) (n0 : R) :
  0 < n0 -> exists arg, log_argument nu (Fin n0) aj = Ok arg.
Proof.
  intros Hn0. unfold log_argument, fdiv. decide_R.
  destruct nu; simpl; eauto.
Qed.

Lemma mjlog_cell_cases (theta : list (list R)) (K : nat) (n0 : R)
    (i : nat) (nu : pyfloat) (j : nat) (aj : pyfloat) :
  0 < n0 -> Forall (fun r => length r = K) theta ->
  (i < length theta)%nat -> (j < K)%nat ->
  match mjlog_cell theta (Fin n0) i nu j aj with
  | Ok _ => exists arg, log_argument nu (Fin n0) aj = Ok (Fin arg) /\ 0 < arg
  | Raise e => exists v, e = ValueError v
  end.
Proof.
  intros Hn0 HF Hi Hj. unfold mjlog_cell.
  destruct (log_argument_total nu aj n0 Hn0) as [a ->]. simpl.
  destruct a as [arg | | |]; eauto.
  destruct (Rleb arg 0) eqn:Harg; [eauto |].
  apply Rleb_false in Harg.
  unfold getitem.
  destruct (nth_error theta i) as [theta_i |] eqn:Hrow;
    [| apply nth_error_None in Hrow; lia].
  assert (Hlen : length theta_i = K).
  { rewrite Forall_forall in HF. apply HF. eapply nth_error_In; eauto. }
  simpl.
  destruct (nth_error theta_i j) as [th |] eqn:Hth;
    [| apply nth_error_None in Hth; lia].
  simpl. eauto.
Qed.

Lemma mjlog_row_cases (theta : list (list R)) (K : nat) (n0 : R) (i : nat) (nu : pyfloat)
    (a : list pyfloat) (j0 : nat) :
  0 < n0 -> Forall (fun r => length r = K) theta ->
  (i < length theta)%nat -> (j0 + length a <= K)%nat ->
  match mjlog_row theta (Fin n0) i nu j0 a with
  | Ok _ => Forall (fun aj => exists arg, log_argument nu (Fin n0) aj = Ok (Fin arg) /\ 0 < arg) a
  | Raise e => exists v, e = ValueError v
  end.
Proof.
  intros Hn0 HF Hi. revert j0; induction a as [| aj a IH]; intros j0 Hj; simpl in *.
  - constructor.
  - pose proof (mjlog_cell_cases theta K n0 i nu j0 aj Hn0 HF Hi) as Hc.
    destruct (mjlog_cell theta (Fin n0) i nu j0 aj); simpl; [| apply Hc; lia].
    specialize (IH (S j0)).
    destruct (mjlog_row theta (Fin n0) i nu (S j0) a); simpl; [| apply IH; lia].
    constructor; [apply Hc; lia | apply IH; lia].
Qed.

Lemma mjlog_rows_cases (theta : list (list R)) (K : nat) (n0 : R)
    (nu_i a : list pyfloat) (i0 : nat) :
  0 < n0 -> Forall (fun r => length r = K) theta ->
  (i0 + length nu_i <= length theta)%nat -> (length a <= K)%nat ->
  match mjlog_rows theta (Fin n0) i0 nu_i a with
  | Ok _ =>
      Forall (fun nu =>
        Forall (fun aj => exists arg, log_argument nu (Fin n0) aj = Ok (Fin arg) /\ 0 < arg) a)
        nu_i
  | Raise e => exists v, e = ValueError v
  end.
Proof.
  intros Hn0 HF. revert i0; induction nu_i as [| nu nu_i IH]; intros i0 Hi Ha; simpl in *.
  - constructor.
  - pose proof (mjlog_row_cases theta K n0 i0 nu a 0 Hn0 HF) as Hr.
    destruct (mjlog_row theta (Fin n0) i0 nu 0 a); simpl; [| apply Hr; lia].
    specialize (IH (S i0)).
    destruct (mjlog_rows theta (Fin n0) (S i0) nu_i a); simpl; [| apply IH; lia].
    constructor; [apply Hr; lia | apply IH; lia].
Qed.

(** Every exception of [mjlog] is a [ValueError]; when it returns, the
    guards on [nu0], on the scales and on every cell have passed. *)
Lemma mjlog_cases (nu_i_hz a_j : list pyfloat) (nu0_hz : pyfloat)
    (theta_ij : option (list (list pyfloat))) :
  match mjlog nu_i_hz a_j nu0_hz theta_ij with
  | Ok _ =>
      fle nu0_hz (Fin 0) = false
      /\ Forall (fun aj => exists r, aj = Fin r /\ 0 < r) a_j
      /\ Forall (fun nu =>
           Forall (fun aj => exists arg, log_argument nu nu0_hz aj = Ok (Fin arg) /\ 0 < arg) a_j)
           nu_i_hz
  | Raise e => exists v, e = ValueError v
  end.
Proof.
  unfold mjlog.
  destruct nu0_hz as [n0 | | |]; simpl; eauto.
  destruct (Rleb n0 0) eqn:Hn0; [eauto |].
  apply Rleb_false in Hn0.
  destruct (check_entries NuNotFinite NuNotPositive 0 nu_i_hz) as [[] | e] eqn:Hnu; simpl;
    [| eapply check_entries_error; exact Hnu].
  destruct (check_entries ANotFinite ANotPositive 0 a_j) as [[] | e] eqn:Ha; simpl;
    [| eapply check_entries_error; exact Ha].
  pose proof (theta_of_shape (length nu_i_hz) (length a_j) theta_ij) as Hth.
  destruct (theta_of (length nu_i_hz) (length a_j) theta_ij) as [theta | e]; simpl;
    [| exact Hth].
  destruct Hth as [HN HK].
  pose proof (mjlog_rows_cases theta (length a_j) n0 nu_i_hz a_j 0 Hn0 HK) as Hrows.
  destruct (mjlog_rows theta (Fin n0) 0 nu_i_hz a_j).
  - split; [reflexivity |].
    split; [eapply check_entries_Ok; exact Ha |].
    apply Hrows; lia.
  - apply Hrows; lia.
Qed.

(** C5: [mjlog] raises a [ValueError], and returns no matrix, whenever
    [nu0 <= 0], whenever some scale [a[j] <= 0], and whenever the
    log-argument [(nu[i] / nu0) * a[j]] of some cell is [<= 0]. *)
Theorem mjlog_domain_errors (nu_i_hz a_j : list pyfloat) (nu0_hz : pyfloat)
    (theta_ij : option (list (list pyfloat))) :
  fle nu0_hz (Fin 0) = true
  \/ (exists aj, In aj a_j /\ fle aj (Fin 0) = true)
  \/ (exists i j nu aj arg,
        nth_error nu_i_hz i = Some nu /\ nth_error a_j j = Some aj
        /\ log_argument nu nu0_hz aj = Ok arg /\ fle arg (Fin 0) = true) ->
  is_value_error (mjlog nu_i_hz a_j nu0_hz theta_ij).
Proof.
  intros Hbad.
  pose proof (mjlog_cases nu_i_hz a_j nu0_hz theta_ij) as Hc.
  destruct (mjlog nu_i_hz a_j nu0_hz theta_ij) as [M | e].
  - exfalso. destruct Hc as (H0 & Ha & Hcells).
    destruct Hbad as [Hnu0 | [(aj & Hin & Haj) | (i & j & nu & aj & arg & Hi & Hj & Harg & Hle)]].
    + congruence.
    + rewrite Forall_forall in Ha. destruct (Ha aj Hin) as (r & -> & Hr).
      simpl in Haj. apply Rleb_true in Haj. lra.
    + rewrite Forall_forall in Hcells.
      specialize (Hcells nu (nth_error_In _ _ Hi)).
      rewrite Forall_forall in Hcells.
      destruct (Hcells aj (nth_error_In _ _ Hj)) as (arg' & E & Hpos).
      rewrite E in Harg. injection Harg as <-.
      simpl in Hle. apply Rleb_true in Hle. lra.
  - destruct Hc as [v ->]. exists v. reflexivity.
Qed.

Lemma mjlog_domain_errors_witness :
  (fle (Fin 0) (Fin 0) = true
   /\ is_value_error (mjlog [Fin 432] [Fin 1] (Fin 0) None))
  /\ ((exists aj, In aj [Fin 1; Fin (-2)] /\ fle aj (Fin 0) = true)
      /\ is_value_error (mjlog [Fin 432] [Fin 1; Fin (-2)] (Fin 432) None))
  /\ ((exists arg, log_argument (Fin 1) (Fin 1) (Fin (-1)) = Ok arg /\ fle arg (Fin 0) = true)
      /\ is_value_error (mjlog [Fin 1] [Fin (-1)] (Fin 1) None)).
Proof.
  assert (H0 : fle (Fin 0) (Fin 0) = true) by (apply Rleb_true; lra).
  assert (H2 : exists aj, In aj [Fin 1; Fin (-2)] /\ fle aj (Fin 0) = true).
  { exists (Fin (-2)). split; [right; left; reflexivity | apply Rleb_true; lra]. }
  assert (H3 : exists arg, log_argument (Fin 1) (Fin 1) (Fin (-1)) = Ok arg
                           /\ fle arg (Fin 0) = true).
  { exists (Fin (1 / 1 * -1)). unfold log_argument, fdiv. decide_R.
    split; [reflexivity | apply Rleb_true; lra]. }
  split; [split; [exact H0 |] | split; [split; [exact H2 |] | split; [exact H3 |]]].
  - apply (mjlog_domain_errors [Fin 432] [Fin 1] (Fin 0) None).
    left. exact H0.
  - apply (mjlog_domain_errors [Fin 432] [Fin 1; Fin (-2)] (Fin 432) None).
    right; left. exact H2.
  - apply (mjlog_domain_errors [Fin 1] [Fin (-1)] (Fin 1) None).
    right; right. destruct H3 as (arg & Harg & Hle).
    exists 0%nat, 0%nat, (Fin 1), (Fin (-1)), arg. auto.
Defined.

(** ** Retarded phases *)

Lemma nth_error_combine {A B : Type} (l1 : list A) (l2 : list B) (j : nat) (x : A) (y : B) :
  nth_error l1 j = Some x -> nth_error l2 j = Some y ->
  nth_error (combine l1 l2) j = Some (x, y).
Proof.
  revert l2 j; induction l1 as [| x1 l1 IH]; intros l2 j H1 H2.
  - destruct j; discriminate.
  - destruct l2 as [| y1 l2]; [destruct j; discriminate |].
    destruct j as [| j]; simpl in *.
    + congruence.
    + apply IH; assumption.
Qed.

(** ** Retarded delays *)

Lemma fsquare_nonneg (x : pyfloat) : nonneg (fsquare x).
Proof. destruct x; simpl; trivial. nra. Qed.

Lemma fadd_nonneg (x y : pyfloat) : nonneg x -> nonneg y -> nonneg (fadd x y).
Proof. destruct x, y; simpl; trivial; try contradiction. lra. Qed.

Lemma dist2_nonneg (xi x_star : list pyfloat) : nonneg (dist2 xi x_star).
Proof.
  unfold dist2.
  assert (H0 : nonneg (Fin 0)) by (simpl; lra).
  revert H0. generalize (Fin 0). generalize (combine xi x_star).
  induction l as [| ab l IH]; intros acc Hacc; simpl; [exact Hacc |].
  apply IH, fadd_nonneg; [exact Hacc | apply fsquare_nonneg].
Qed.

Lemma fsqrt_nonneg (x : pyfloat) :
  nonneg x -> exists d, fsqrt x = Ok d /\ nonneg d.
Proof.
  destruct x as [r | | |]; simpl; intros Hx; try contradiction; eauto.
  replace (Rltb r 0) with false by (symmetry; apply Rltb_false; exact Hx).
  exists (Fin (sqrt r)). split; [reflexivity | apply sqrt_pos].
Qed.

(** * Properties in binary64 *)

(** ** Binary64 facts *)

(** Rounding a value whose sign bit is clear gives no negative float. *)
Lemma round_aux_not_negative (m e : Z) (l : location) :
  SFltb (binary_round_aux prec emax false m e l) (S754_zero false) = false.
Proof.
  unfold binary_round_aux.
  destruct (shr_fexp prec emax m e l) as [mrs' e'].
  destruct (shr_fexp prec emax _ e' loc_Exact) as [mrs'' e''].
  destruct (shr_m mrs''); [reflexivity | | reflexivity].
  destruct (Z.leb e'' (emax - prec)); reflexivity.
Qed.

Lemma round_not_negative (m : positive) (e : Z) :
  SFltb (binary_round prec emax false m e) (S754_zero false) = false.
Proof.
  unfold binary_round.
  destruct (shl_align m e _) as [mz ez]. apply round_aux_not_negative.
Qed.

Lemma sf_not_negative_cases (s : spec_float) :
  B64.sf_not_negative s ->
  s = S754_nan \/ (exists b, s = S754_zero b) \/ s = S754_infinity false
  \/ exists m e, s = S754_finite false m e.
Proof.
  unfold B64.sf_not_negative.
  destruct s as [b | [|] | | [|] m e]; cbn; intros Hs; try discriminate; eauto.
  right; right; right; eauto.
Qed.

Lemma not_negative_spec (x : float) :
  (x <? 0)%float = false <-> B64.sf_not_negative (Prim2SF x).
Proof. rewrite ltb_spec. reflexivity. Qed.

Lemma SFadd_not_negative (a b : spec_float) :
  B64.sf_not_negative a -> B64.sf_not_negative b -> B64.sf_not_negative (SF64add a b).
Proof.
  intros Ha Hb.
  destruct (sf_not_negative_cases a Ha) as [-> | [[sa ->] | [-> | (ma & ea & ->)]]];
  destruct (sf_not_negative_cases b Hb) as [-> | [[sb ->] | [-> | (mb & eb & ->)]]];
  try reflexivity;
  try (destruct sa); try (destruct sb); try reflexivity.
  unfold SF64add, SFadd, B64.sf_not_negative.
  cbn [cond_Zopp Z.add].
  apply round_not_negative.
Qed.

Lemma SFmul_not_negative (a b : spec_float) :
  B64.sf_not_negative a -> B64.sf_not_negative b -> B64.sf_not_negative (SF64mul a b).
Proof.
  intros Ha Hb.
  destruct (sf_not_negative_cases a Ha) as [-> | [[sa ->] | [-> | (ma & ea & ->)]]];
  destruct (sf_not_negative_cases b Hb) as [-> | [[sb ->] | [-> | (mb & eb & ->)]]];
  try reflexivity;
  try (destruct sa); try (destruct sb); try reflexivity.
  unfold SF64mul, SFmul, B64.sf_not_negative. cbn [xorb].
  apply round_aux_not_negative.
Qed.

Lemma SFsquare_not_negative (a : spec_float) : B64.sf_not_negative (SF64mul a a).
Proof.
  destruct a as [[|] | [|] | | [|] m e]; try reflexivity;
    unfold SF64mul, SFmul, B64.sf_not_negative; cbn [xorb];
    apply round_aux_not_negative.
Qed.

Lemma SFsqrt_not_negative (a : spec_float) : B64.sf_not_negative (SF64sqrt a).
Proof.
  destruct a as [[|] | [|] | | [|] m e]; try reflexivity.
  unfold SF64sqrt, SFsqrt, B64.sf_not_negative.
  destruct (SFsqrt_core_binary prec emax (Z.pos m) e) as [[mz ez] lz].
  apply round_aux_not_negative.
Qed.

Lemma SFabs_not_negative (a : spec_float) : B64.sf_not_negative (SFabs a).
Proof. destruct a as [[|] | [|] | | [|] m e]; reflexivity. Qed.

(** The facts, on floats. *)
Lemma add_not_negative (x y : float) :
  (x <? 0)%float = false -> (y <? 0)%float = false -> (x + y <? 0)%float = false.
Proof.
  rewrite !not_negative_spec, add_spec. apply SFadd_not_negative.
Qed.

Lemma mul_not_negative (x y : float) :
  (x <? 0)%float = false -> (y <? 0)%float = false -> (x * y <? 0)%float = false.
Proof.
  rewrite !not_negative_spec, mul_spec. apply SFmul_not_negative.
Qed.

Lemma square_not_negative (x : float) : (x * x <? 0)%float = false.
Proof. rewrite not_negative_spec, mul_spec. apply SFsquare_not_negative. Qed.

Lemma sqrt_not_negative (x : float) : (PrimFloat.sqrt x <? 0)%float = false.
Proof. rewrite not_negative_spec, sqrt_spec. apply SFsqrt_not_negative. Qed.

Lemma abs_not_negative (x : float) : (abs x <? 0)%float = false.
Proof. rewrite not_negative_spec, abs_spec. apply SFabs_not_negative. Qed.

(** A float that is not [<= 0] is not zero, and dividing a non-negative
    float by it gives no negative float. *)
Lemma not_leb_not_eqb (v : float) :
  (v <=? 0)%float = false -> (v =? 0)%float = false.
Proof.
  rewrite leb_spec, FloatAxioms.eqb_spec. unfold SFleb, SFeqb.
  destruct (SFcompare (Prim2SF v) (Prim2SF 0)) as [[| |]|]; congruence.
Qed.

Lemma SFdiv_not_negative (a v : spec_float) :
  B64.sf_not_negative a -> SFleb v (S754_zero false) = false ->
  B64.sf_not_negative (SF64div a v).
Proof.
  intros Ha Hv.
  destruct (sf_not_negative_cases a Ha) as [-> | [[sa ->] | [-> | (ma & ea & ->)]]];
  destruct v as [[|] | [|] | | [|] mv ev]; try discriminate; try reflexivity;
  try (destruct sa; reflexivity).
  unfold SF64div, SFdiv, B64.sf_not_negative. cbn [xorb].
  destruct (SFdiv_core_binary prec emax (Z.pos ma) ea (Z.pos mv) ev) as [[mz ez] lz].
  apply round_aux_not_negative.
Qed.

Lemma div_not_negative (x v : float) :
  (x <? 0)%float = false -> (v <=? 0)%float = false -> (x / v <? 0)%float = false.
Proof.
  rewrite !not_negative_spec, leb_spec, div_spec. apply SFdiv_not_negative.
Qed.

Lemma is_nan_spec (x : float) : is_nan x = true <-> Prim2SF x = S754_nan.
Proof.
  unfold is_nan. rewrite FloatAxioms.eqb_spec. unfold SFeqb.
  destruct (Prim2SF x) as [[|] | [|] | | [|] m e]; cbn;
    try (split; [discriminate | discriminate]); try (split; reflexivity).
  - rewrite Z.compare_refl, Pos.compare_cont_refl. cbn. split; discriminate.
  - rewrite Z.compare_refl, Pos.compare_cont_refl. cbn. split; discriminate.
Qed.

Lemma div_by_nan (x : float) : is_nan (x / nan) = true.
Proof.
  rewrite is_nan_spec, div_spec.
  change (Prim2SF nan) with S754_nan.
  destruct (Prim2SF x) as [[|] | [|] | | [|] m e]; reflexivity.
Qed.

Lemma div_by_infinity (x : float) :
  (x / infinity =? 0)%float = true \/ is_nan (x / infinity) = true.
Proof.
  rewrite is_nan_spec, FloatAxioms.eqb_spec, div_spec.
  change (Prim2SF infinity) with (S754_infinity false).
  change (Prim2SF 0) with (S754_zero false).
  destruct (Prim2SF x) as [[|] | [|] | | [|] m e]; cbn; auto.
Qed.

(** ** Retarded delays in binary64 *)

Lemma pow2_cases (x : float) :
  (B64.square_overflow x = true /\ B64.pow2 x = Raise OverflowError)
  \/ (B64.square_overflow x = false /\ B64.pow2 x = Ok (x * x)%float).
Proof.
  unfold B64.pow2. destruct (B64.square_overflow x); auto.
Qed.

Lemma dist2_loop_cases (ab : list (float * float)) (d2 : float) :
  (d2 <? 0)%float = false ->
  (Exists (fun p => B64.square_overflow (fst p - snd p) = true) ab
   /\ B64.dist2_loop d2 ab = Raise OverflowError)
  \/ (Forall (fun p => B64.square_overflow (fst p - snd p) = false) ab
      /\ exists d, B64.dist2_loop d2 ab = Ok d /\ (d <? 0)%float = false).
Proof.
  revert d2. induction ab as [| [a b] ab IH]; intros d2 Hd; cbn [B64.dist2_loop].
  - right. split; [constructor | eauto].
  - destruct (pow2_cases (a - b)) as [[Eo E] | [Eo E]]; rewrite E; cbn [bind].
    + left. split; [left; exact Eo | reflexivity].
    + destruct (IH (d2 + (a - b) * (a - b))%float) as [[HE Hr] | [HF Hr]].
      * apply add_not_negative; [exact Hd | apply square_not_negative].
      * left. split; [right; exact HE | exact Hr].
      * right. split; [| exact Hr].
        constructor; [exact Eo | exact HF].
Qed.

Lemma dist2_cases (xi x_star : list float) :
  (B64.square_overflows xi x_star /\ B64.dist2 xi x_star = Raise OverflowError)
  \/ (~ B64.square_overflows xi x_star
      /\ exists d, B64.dist2 xi x_star = Ok d /\ (d <? 0)%float = false).
Proof.
  unfold B64.dist2, B64.square_overflows.
  destruct (dist2_loop_cases (combine xi x_star) 0%float eq_refl)
    as [[HE Hr] | [HF Hr]]; [left; auto | right; split; [| exact Hr]].
  intros HE. apply Exists_exists in HE. destruct HE as (p & Hp & Ep).
  rewrite Forall_forall in HF. rewrite (HF p Hp) in Ep. discriminate.
Qed.

Lemma msqrt_not_negative (d : float) :
  (d <? 0)%float = false -> B64.msqrt d = Ok (PrimFloat.sqrt d).
Proof. unfold B64.msqrt. intros ->. reflexivity. Qed.

Lemma fdiv_by_speed64 (d v : float) :
  (v <=? 0)%float = false -> B64.fdiv d v = Ok (d / v)%float.
Proof. unfold B64.fdiv. intros Hv. rewrite (not_leb_not_eqb v Hv). reflexivity. Qed.

Lemma delays_loop_cases (x_star : list float) (v : float) (X : list (list float)) :
  (v <=? 0)%float = false ->
  (raises (B64.delays_loop x_star v X)
   /\ (Exists (fun xi => length xi <> length x_star) X
       \/ Exists (fun xi => B64.square_overflows xi x_star) X))
  \/ (Forall (fun xi => length xi = length x_star) X
      /\ Forall (fun xi => ~ B64.square_overflows xi x_star) X
      /\ exists tau, B64.delays_loop x_star v X = Ok tau
           /\ Forall2 (fun xi t => exists d2, B64.dist2 xi x_star = Ok d2
                                    /\ t = (PrimFloat.sqrt d2 / v)%float
                                    /\ (t <? 0)%float = false) X tau).
Proof.
  intros Hv. induction X as [| xi X IH]; cbn [B64.delays_loop].
  - right. repeat split; try constructor. exists []. split; [reflexivity | constructor].
  - destruct (Nat.eqb_spec (length xi) (length x_star)) as [El | El]; cbn [negb].
    + destruct (dist2_cases xi x_star) as [[HE Hr] | [Hno (d & Hr & Hd)]];
        rewrite Hr; cbn [bind].
      * left. split; [eexists; reflexivity |]. right. left. exact HE.
      * rewrite (msqrt_not_negative d Hd). cbn [bind].
        rewrite (fdiv_by_speed64 _ v Hv). cbn [bind].
        destruct IH as [[[e He] Hc] | (HL & HN & tau & Ht & H2)].
        -- left. rewrite He. split; [eexists; reflexivity |].
           destruct Hc as [Hc | Hc]; [left | right]; right; exact Hc.
        -- right. rewrite Ht. cbn [bind].
           split; [constructor; assumption |].
           split; [constructor; assumption |].
           eexists. split; [reflexivity |].
           constructor; [| exact H2].
           exists d. split; [exact Hr |]. split; [reflexivity |].
           apply div_not_negative; [apply sqrt_not_negative | exact Hv].
    + left. split; [eexists; reflexivity |]. left. left. exact El.
Qed.

Lemma nan_is_unordered (v : float) :
  v = nan \/ v = infinity -> (v <=? 0)%float = false.
Proof. intros [-> | ->]; reflexivity. Qed.

(** C10 (amended): [retarded_delays] raises if and only if [v <= 0], or some row of
    [X] has a length other than that of [x*], or the square of some
    coordinate difference overflows; a speed that is NaN or +infinity
    passes the guard, and with rows of matching length and no overflowing
    square the call returns one delay per row, each NaN or zero. *)
Theorem retarded_delays_raises_iff (X : list (list float)) (x_star : list float)
    (v : float) :
  (raises (B64.retarded_delays X x_star v)
   <-> (v <=? 0)%float = true
       \/ Exists (fun xi => length xi <> length x_star) X
       \/ Exists (fun xi => B64.square_overflows xi x_star) X)
  /\ (v = nan \/ v = infinity ->
      Forall (fun xi => length xi = length x_star) X ->
      Forall (fun xi => ~ B64.square_overflows xi x_star) X ->
      exists tau, B64.retarded_delays X x_star v = Ok tau
                  /\ length tau = length X
                  /\ Forall (fun d => is_nan d = true \/ (d =? 0)%float = true) tau).
Proof.
  unfold B64.retarded_delays. split.
  - destruct (v <=? 0)%float eqn:Hv.
    + split; [intros _; left; reflexivity | intros _; eexists; reflexivity].
    + destruct (delays_loop_cases x_star v X Hv)
        as [[Hr Hc] | (HL & HN & tau & Ht & _)].
      * split; [intros _; right; exact Hc | intros _; exact Hr].
      * split.
        -- rewrite Ht. intros [e He]. discriminate.
        -- intros [Habs | [HE | HE]]; [discriminate | |];
             apply Exists_exists in HE; destruct HE as (xi & Hin & Hxi);
             [rewrite Forall_forall in HL; elim Hxi; exact (HL xi Hin)
             | rewrite Forall_forall in HN; elim (HN xi Hin); exact Hxi].
  - intros Hv HL HN.
    rewrite (nan_is_unordered v Hv).
    destruct (delays_loop_cases x_star v X (nan_is_unordered v Hv))
      as [[_ [HE | HE]] | (_ & _ & tau & Ht & H2)].
    + apply Exists_exists in HE; destruct HE as (xi & Hin & Hxi).
      rewrite Forall_forall in HL. elim Hxi. exact (HL xi Hin).
    + apply Exists_exists in HE; destruct HE as (xi & Hin & Hxi).
      rewrite Forall_forall in HN. elim (HN xi Hin). exact Hxi.
    + exists tau. split; [exact Ht |].
      split; [symmetry; exact (Forall2_length H2) |].
      clear Ht HL HN. induction H2 as [| xi t X tau (d2 & _ & -> & _) _ IH];
        constructor; [| exact IH].
      destruct Hv as [-> | ->];
        [left; apply div_by_nan
        | destruct (div_by_infinity (PrimFloat.sqrt d2)); auto].
Qed.

(** C10, as stated, fails: a coordinate whose square overflows raises
    [OverflowError], with a positive speed and a row of the dimension of
    [x*]. *)
Lemma retarded_delays_overflow :
  B64.retarded_delays [[0x1p+600%float]] [0%float] 1%float = Raise OverflowError
  /\ (1 <=? 0)%float = false
  /\ ~ Exists (fun xi : list float => length xi <> length [0%float]) [[0x1p+600%float]].
Proof.
  split; [reflexivity |]. split; [reflexivity |].
  intros HE. inversion HE as [? ? Hx | ? ? Hx]; [apply Hx; reflexivity | inversion Hx].
Qed.

Lemma retarded_delays_raises_iff_witness :
  (nan = nan \/ nan = infinity)
  /\ exists tau,
       B64.retarded_delays [[0; 0]; [3; 4]]%float [1; 1]%float nan = Ok tau
       /\ length tau = 2%nat
       /\ Forall (fun d => is_nan d = true \/ (d =? 0)%float = true) tau.
Proof.
  split; [left; reflexivity |].
  apply (retarded_delays_raises_iff [[0; 0]; [3; 4]]%float [1; 1]%float nan);
    [left; reflexivity | repeat constructor |].
  repeat constructor; unfold B64.square_overflows; intros HE;
    repeat (inversion HE as [? ? Hx | ? ? Hx]; subst; [discriminate Hx |]; clear HE; rename Hx into HE);
    inversion HE.
Defined.

(** ** Retarded phases in binary64 *)

Lemma nth_error_repeat {A : Type} (x : A) (n j : nat) :
  (j < n)%nat -> nth_error (repeat x n) j = Some x.
Proof.
  revert j; induction n as [| n IH]; intros j Hj; [lia |].
  destruct j as [| j]; [reflexivity | apply IH; lia].
Qed.

(** The matrix built on a phase offset [psi] of the right length. *)
Lemma phase_matrix_on (a_j tau_i psi : list float) (nu0_hz t : float) :
  length psi = length a_j ->
  let theta :=
    map (fun tau => map (fun '(Om, ps) => Om * (t - tau) + ps)
                        (combine (map (fun aj => 2 * B64.pi * nu0_hz * aj) a_j) psi))%float
        tau_i in
  length theta = length tau_i
  /\ Forall (fun row => length row = length a_j) theta
  /\ forall i j tau aj ps,
       nth_error tau_i i = Some tau -> nth_error a_j j = Some aj ->
       nth_error psi j = Some ps ->
       exists row,
         nth_error theta i = Some row
         /\ nth_error row j
            = Some (2 * B64.pi * nu0_hz * aj * (t - tau) + ps)%float.
Proof.
  intros Hlen theta. unfold theta.
  split; [apply length_map |].
  split.
  - apply Forall_forall. intros row Hrow.
    apply in_map_iff in Hrow as (tau & <- & _).
    rewrite length_map, length_combine, length_map. lia.
  - intros i j tau aj ps Htau Haj Hps.
    eexists. split.
    + rewrite nth_error_map, Htau. reflexivity.
    + rewrite nth_error_map.
      rewrite (nth_error_combine _ _ j (2 * B64.pi * nu0_hz * aj)%float ps);
        [reflexivity | | exact Hps].
      rewrite nth_error_map, Haj. reflexivity.
Qed.

(** C8: with [K = len(a)], [retarded_phase_matrix] returns [theta], one row
    of length [K] per delay, with
    [theta[i][j] = 2 pi nu0 a[j] (t - tau[i]) + psi[j]] in every cell, where
    [psi[j]] is the supplied offset when [psi] has length [K] and [0.0] when
    [psi] is omitted; a supplied [psi] of another length raises. *)
Theorem retarded_phase_matrix_cells (a_j tau_i : list float) (nu0_hz t : float) :
  let K := length a_j in
  (exists theta,
     B64.retarded_phase_matrix a_j tau_i nu0_hz t None = Ok theta
     /\ length theta = length tau_i
     /\ Forall (fun row => length row = K) theta
     /\ forall i j tau aj,
          nth_error tau_i i = Some tau -> nth_error a_j j = Some aj ->
          exists row,
            nth_error theta i = Some row
            /\ nth_error row j
               = Some (2 * B64.pi * nu0_hz * aj * (t - tau) + 0)%float)
  /\ (forall psi, length psi = K ->
      exists theta,
        B64.retarded_phase_matrix a_j tau_i nu0_hz t (Some psi) = Ok theta
        /\ length theta = length tau_i
        /\ Forall (fun row => length row = K) theta
        /\ forall i j tau aj ps,
             nth_error tau_i i = Some tau -> nth_error a_j j = Some aj ->
             nth_error psi j = Some ps ->
             exists row,
               nth_error theta i = Some row
               /\ nth_error row j
                  = Some (2 * B64.pi * nu0_hz * aj * (t - tau) + ps)%float)
  /\ (forall psi, length psi <> K ->
      B64.retarded_phase_matrix a_j tau_i nu0_hz t (Some psi)
      = Raise (ValueError PsiLength)).
Proof.
  intros K. unfold B64.retarded_phase_matrix. fold K.
  split; [| split].
  - rewrite repeat_length, Nat.eqb_refl. cbn [negb].
    destruct (phase_matrix_on a_j tau_i (repeat 0%float K) nu0_hz t (repeat_length _ _))
      as (H1 & H2 & H3).
    eexists. split; [reflexivity |]. split; [exact H1 |]. split; [exact H2 |].
    intros i j tau aj Htau Haj.
    apply (H3 i j tau aj 0%float Htau Haj).
    apply nth_error_repeat. apply nth_error_Some. unfold K. congruence.
  - intros psi Hlen. rewrite Hlen, Nat.eqb_refl. cbn [negb].
    destruct (phase_matrix_on a_j tau_i psi nu0_hz t Hlen) as (H1 & H2 & H3).
    eexists. split; [reflexivity |]. split; [exact H1 |]. split; [exact H2 | exact H3].
  - intros psi Hlen.
    destruct (Nat.eqb_spec (length psi) K); [contradiction | reflexivity].
Qed.

(** The matrix on two scales, two delays and a supplied offset: the cell of
    the second row and second column carries the second offset. *)
Lemma retarded_phase_matrix_cells_witness :
  length [0x1p-2; 0x1p-1]%float = length [1; 2]%float
  /\ exists theta row,
       B64.retarded_phase_matrix [1; 2]%float [0; 1]%float 1%float 3%float
         (Some [0x1p-2; 0x1p-1]%float) = Ok theta
       /\ nth_error theta 1 = Some row
       /\ nth_error row 1
          = Some (2 * B64.pi * 1 * 2 * (3 - 1) + 0x1p-1)%float.
Proof.
  split; [reflexivity |].
  destruct (proj1 (proj2 (retarded_phase_matrix_cells [1; 2]%float [0; 1]%float 1%float 3%float))
              [0x1p-2; 0x1p-1]%float eq_refl) as (theta & E & _ & _ & Hcell).
  destruct (Hcell 1%nat 1%nat 1%float 2%float 0x1p-1%float eq_refl eq_refl eq_refl)
    as (row & Hrow & Hj).
  exists theta, row. repeat split; assumption.
Defined.

(** ** The library and the generator of the examples *)

Lemma table_hypot_not_negative (x y : float) : (B64.table_hypot x y <? 0)%float = false.
Proof.
  unfold B64.table_hypot.
  destruct (y =? 0)%float; [apply abs_not_negative |].
  destruct (x =? 0)%float; [apply abs_not_negative |].
  destruct (_ && _); [reflexivity |].
  destruct (_ && _); reflexivity.
Qed.

Lemma table_atan2_range (y x : float) :
  B64.within (- B64.pi) B64.pi (B64.table_atan2 y x).
Proof. split; reflexivity. Qed.

(** The library of the examples: the recorded values. *)
Definition libm_table : B64.LibM := {|
  B64.exp := B64.table_exp;
  B64.cos := B64.table_cos;
  B64.sin := B64.table_sin;
  B64.hypot := B64.table_hypot;
  B64.atan2 := B64.table_atan2;
  B64.cexp_special := B64.table_cexp_special;
  B64.hypot_not_negative := table_hypot_not_negative;
  B64.atan2_range := table_atan2_range
|}.

Lemma script_sample2_small (n : nat) (g : nat * list float) :
  (n < 2)%nat -> B64.script_sample2 n g = Raise (ValueError SampleTooLarge).
Proof.
  intros Hn. unfold B64.script_sample2. rewrite counter_sample2_small by exact Hn.
  reflexivity.
Qed.

Lemma script_sample2_distinct (n : nat) (g : nat * list float) :
  (2 <= n)%nat ->
  exists i1 i2 g', B64.script_sample2 n g = Ok (i1, i2, g')
                   /\ (i1 < n)%nat /\ (i2 < n)%nat /\ i1 <> i2.
Proof.
  intros Hn. unfold B64.script_sample2.
  destruct (counter_sample2_distinct n (fst g) Hn) as (i1 & i2 & c & -> & Hc).
  exists i1, i2, (c, snd g). split; [reflexivity | exact Hc].
Qed.

(** The scripted generator meets the contract of [sample]. *)
Definition script_rng : B64.RandomGen (nat * list float) := {|
  B64.rng_seed := fun _ => (0%nat, []);
  B64.rng_sample2 := B64.script_sample2;
  B64.rng_uniform := B64.script_uniform;
  B64.rng_sample2_small := script_sample2_small;
  B64.rng_sample2_distinct := script_sample2_distinct
|}.

(** ** Magnitude and phase of a complex number in binary64 *)


Section Library64.
Context `{B64.LibM}.

Lemma c_abs_cases (z : B64.complex) :
  B64.c_abs z = Raise OverflowError
  \/ exists m, B64.c_abs z = Ok m /\ (m <? 0)%float = false.
Proof.
  destruct z as [x y]. unfold B64.c_abs.
  destruct (negb (is_finite x && is_finite y)).
  - right. destruct (is_infinity x); [eexists; split; [reflexivity | apply abs_not_negative] |].
    destruct (is_infinity y); eexists; (split; [reflexivity |]);
      [apply abs_not_negative | reflexivity].
  - destruct (negb (is_finite (B64.hypot x y))); [left; reflexivity |].
    right. eexists; split; [reflexivity | apply B64.hypot_not_negative].
Qed.


End Library64.

(** ** Minor sampling in binary64 *)



Section Sampling64.
Context `{B64.LibM} {G : Type} `{B64.RandomGen G}.



End Sampling64.



(** ** Phase scrambling in binary64 *)

Section Scramble64.
Context `{B64.LibM} {G : Type} `{B64.RandomGen G}.

Lemma scramble_row_cases (row : list B64.complex) (rng : G) :
  (raises (B64.scramble_row row rng)
   /\ (Exists (fun z => B64.c_abs z = Raise OverflowError) row
       \/ exists mag ph, raises (B64.scrambled mag ph)))
  \/ exists out rng',
       B64.scramble_row row rng = Ok (out, rng')
       /\ Forall2 B64.scrambled_from row out.
Proof.
  revert rng; induction row as [| z row IH]; intros rng; cbn [B64.scramble_row].
  - right. exists [], rng. split; [reflexivity | constructor].
  - destruct (c_abs_cases z) as [Ha | (mag & Ha & _)]; rewrite Ha; cbn [bind].
    + left. split; [eexists; reflexivity | left; left; exact Ha].
    + destruct (B64.rng_uniform (- B64.pi) B64.pi rng) as [ph rng1].
      destruct (B64.scrambled mag ph) as [z' | e] eqn:Hz; cbn [bind].
      * destruct (IH rng1) as [[[e He] Hc] | (out & rng' & Hr & H2)].
        -- left. rewrite He. split; [eexists; reflexivity |].
           destruct Hc as [Hc | Hc]; [left; right; exact Hc | right; exact Hc].
        -- right. rewrite Hr. cbn [bind]. exists (z' :: out), rng'.
           split; [reflexivity |]. constructor; [| exact H2].
           exists mag, ph. split; assumption.
      * left. split; [eexists; reflexivity |]. right.
        exists mag, ph, e. exact Hz.
Qed.

Lemma scramble_rows_cases (M : list (list B64.complex)) (rng : G) :
  (raises (B64.scramble_rows M rng) /\ B64.scramble_raises M)
  \/ exists M' rng',
       B64.scramble_rows M rng = Ok (M', rng')
       /\ Forall2 (Forall2 B64.scrambled_from) M M'.
Proof.
  revert rng; induction M as [| row M IH]; intros rng; cbn [B64.scramble_rows].
  - right. exists [], rng. split; [reflexivity | constructor].
  - destruct (scramble_row_cases row rng) as [[[e He] Hc] | (out & rng1 & Hr & H2)].
    + left. rewrite He. split; [eexists; reflexivity |].
      destruct Hc as [Hc | Hc]; [left; left; exact Hc | right; exact Hc].
    + rewrite Hr. cbn [bind].
      destruct (IH rng1) as [[[e He] Hc] | (M' & rng' & HM & H3)].
      * left. rewrite He. split; [eexists; reflexivity |].
        destruct Hc as [Hc | Hc]; [left; right; exact Hc | right; exact Hc].
      * right. rewrite HM. cbn [bind]. exists (out :: M'), rng'.
        split; [reflexivity |]. constructor; assumption.
Qed.

End Scramble64.

(** C6, as stated, fails: in the scramble of the 1x1 matrix [[3.0]] with
    the drawn phase [pi/3] (as a float), the cell written has magnitude
    [3.0000000000000004], not [3.0]. *)
Lemma phase_scramble_rounds :
  @B64.phase_scramble libm_table _ script_rng [[(3, 0)]]%float
    (Some (0%nat, [0x1.0c152382d7365p+0%float]))
  = Ok ([[(0x1.8000000000002p+0, 0x1.4c8dc2e42398p+1)]]%float, (0%nat, []))
  /\ @B64.c_abs libm_table (3, 0)%float = Ok 3%float
  /\ @B64.c_abs libm_table (0x1.8000000000002p+0, 0x1.4c8dc2e42398p+1)%float
     = Ok 0x1.8000000000001p+1%float
  /\ (3 =? 0x1.8000000000001p+1)%float = false.
Proof. repeat split; reflexivity. Qed.

(** C6 (amended): in exact arithmetic the scrambled matrix has the shape of
    [M] and every cell keeps its magnitude exactly.  In binary64
    [phase_scramble] raises only when [abs] overflows on a cell or
    [cmath.exp] raises on a drawn phase, and otherwise returns a matrix of
    the shape of [M] whose cell [(i, j)] is [abs(M[i][j]) * exp(1j*ph)] for
    a float [ph]: its magnitude is that of [M[i][j]] up to rounding only. *)
Theorem phase_scramble_magnitude :
  (forall (G : Type) (RG : RandomGen G) (M : list (list complex)) (rng : option G),
     let M' := fst (phase_scramble M rng) in
     map (@length complex) M' = map (@length complex) M
     /\ forall i j z, cell M i j = Ok z ->
          exists z', cell M' i j = Ok z' /\ Cabs z' = Cabs z)
  /\ (forall (L : B64.LibM) (G : Type) (RG : B64.RandomGen G)
             (M : list (list B64.complex)) (rng : option G),
        (raises (B64.phase_scramble M rng) /\ B64.scramble_raises M)
        \/ exists M' g',
             B64.phase_scramble M rng = Ok (M', g')
             /\ Forall2 (Forall2 B64.scrambled_from) M M').
Proof.
  split.
  - intros G RG M rng. apply phase_scramble_exact.
  - intros L G RG M rng. apply scramble_rows_cases.
Qed.

(** ** The circular statistic in binary64 *)

(** C7, as stated, fails: on three phases [1.0] the code returns [1.0];
    on the same phases shifted by [pi/3 - 1.0] (as a float), which are
    three phases [pi/3], it returns [1.0000000000000002]. *)
Lemma mean_resultant_length_rounds :
  @B64.mean_resultant_length libm_table [1; 1; 1]%float = Ok 1%float
  /\ map (fun p => p + 0x1.82a4705ae6cap-5)%float [1; 1; 1]%float
     = [0x1.0c152382d7365p+0; 0x1.0c152382d7365p+0; 0x1.0c152382d7365p+0]%float
  /\ @B64.mean_resultant_length libm_table
       (map (fun p => p + 0x1.82a4705ae6cap-5)%float [1; 1; 1]%float)
     = Ok 0x1.0000000000001p+0%float
  /\ (1 =? 0x1.0000000000001p+0)%float = false.
Proof. repeat split; reflexivity. Qed.

(** ** Angular wrapping in binary64 *)




(** * Further properties of the code *)

(** ** The circular statistic: bounds *)

Lemma Cabs_triangle (z w : complex) : Cabs (Cadd z w) <= Cabs z + Cabs w.
Proof.
  destruct z as [a b], w as [c d]. unfold Cabs, Cadd; simpl.
  set (s1 := sqrt (a * a + b * b)). set (s2 := sqrt (c * c + d * d)).
  assert (H1 : 0 <= s1) by apply sqrt_pos.
  assert (H2 : 0 <= s2) by apply sqrt_pos.
  assert (E1 : s1 * s1 = a * a + b * b) by (apply sqrt_sqrt; nra).
  assert (E2 : s2 * s2 = c * c + d * d) by (apply sqrt_sqrt; nra).
  assert (CS : a * c + b * d <= s1 * s2).
  { destruct (Rle_dec (a * c + b * d) 0) as [Hn | Hp]; [nra |].
    assert (Hp2 : 0 <= s1 * s2) by nra.
    apply Rsqr_incr_0; [| lra | exact Hp2].
    unfold Rsqr.
    replace (s1 * s2 * (s1 * s2)) with ((s1 * s1) * (s2 * s2)) by ring.
    rewrite E1, E2.
    pose proof (Rle_0_sqr (a * d - b * c)) as Hsq. unfold Rsqr in Hsq. nra. }
  rewrite <- (sqrt_square (s1 + s2)) by lra.
  apply sqrt_le_1_alt. nra.
Qed.

Lemma resultant_acc_bound (ps : list R) (acc : complex) :
  Cabs (fold_left Cadd (map (fun p => Cexp (Cmul Ci (RtoC p))) ps) acc)
  <= Cabs acc + INR (length ps).
Proof.
  revert acc; induction ps as [| p ps IH]; intros acc.
  - simpl. lra.
  - cbn [map fold_left length]. rewrite S_INR.
    eapply Rle_trans; [apply IH |].
    pose proof (Cabs_triangle acc (Cexp (Cmul Ci (RtoC p)))) as Ht.
    rewrite Cexp_i, Cabs_unit in Ht. rewrite Cexp_i. lra.
Qed.

Lemma Cabs_C0 : Cabs C0 = 0.
Proof. unfold Cabs, C0; simpl. replace (0 * 0 + 0 * 0) with 0 by ring. apply sqrt_0. Qed.

(** X1: in exact arithmetic the mean resultant length of any phase
    sequence lies in [0, 1]. *)
Theorem mean_resultant_length_bounds (ps : list R) :
  0 <= mean_resultant_length ps <= 1.
Proof.
  destruct ps as [| p ps]; [simpl; lra |].
  unfold mean_resultant_length.
  set (l := p :: ps).
  assert (Hn : 0 < INR (length l)) by (apply lt_0_INR; simpl; lia).
  pose proof (resultant_acc_bound l C0) as Hb. rewrite Cabs_C0 in Hb.
  fold (resultant l) in Hb.
  pose proof (Cabs_nonneg (resultant l)) as H0.
  split.
  - apply Rmult_le_pos; [exact H0 | left; apply Rinv_0_lt_compat; exact Hn].
  - apply Rmult_le_reg_r with (INR (length l)); [exact Hn |].
    unfold Rdiv. rewrite Rmult_assoc, Rinv_l by lra. lra.
Qed.

Lemma resultant_repeat_acc (p : R) (n : nat) (acc : complex) :
  fold_left Cadd (map (fun q => Cexp (Cmul Ci (RtoC q))) (repeat p n)) acc
  = Cadd acc (INR n * cos p, INR n * sin p).
Proof.
  revert acc; induction n as [| n IH]; intros acc.
  - simpl. destruct acc as [a b]. unfold Cadd; simpl. f_equal; ring.
  - cbn [repeat map fold_left]. rewrite IH, Cexp_i, S_INR.
    destruct acc as [a b]. unfold Cadd; simpl. f_equal; ring.
Qed.

(** X2: when all phases are identical (and there is at least one) the
    mean resultant length is 1. *)
Theorem mean_resultant_length_identical (p : R) (n : nat) :
  (0 < n)%nat -> mean_resultant_length (repeat p n) = 1.
Proof.
  intros Hn. destruct n as [| n]; [lia |].
  unfold mean_resultant_length. cbn [repeat].
  change (p :: repeat p n) with (repeat p (S n)).
  unfold resultant. rewrite resultant_repeat_acc, repeat_length.
  assert (HS : 0 < INR (S n)) by (apply lt_0_INR; lia).
  replace (Cadd C0 (INR (S n) * cos p, INR (S n) * sin p))
    with (Cmul (RtoC (INR (S n))) (cos p, sin p))
    by (unfold Cadd, Cmul, RtoC, C0; simpl; f_equal; ring).
  rewrite Cabs_mul, Cabs_unit, Cabs_RtoC by lra.
  field. lra.
Qed.

Lemma mean_resultant_length_identical_witness :
  (0 < 3)%nat /\ mean_resultant_length (repeat (PI / 3) 3) = 1.
Proof.
  split; [lia |].
  apply (mean_resultant_length_identical (PI / 3) 3). lia.
Defined.

(** ** Angular wrapping: what the wrapped value is *)

Lemma IZR_small (z : Z) : -1 < IZR z < 1 -> z = 0%Z.
Proof.
  intros [Hlo Hhi].
  apply lt_IZR in Hlo. apply lt_IZR in Hhi. lia.
Qed.

(** The wrapped value is the only representative of [x] modulo [2 pi] in
    [-pi, pi). *)
Lemma wrap_pi_unique (x w : R) (k : Z) :
  w = x + 2 * PI * IZR k -> - PI <= w < PI -> _wrap_pi x = Ok w.
Proof.
  intros Hw Hr.
  rewrite wrap_pi_value. f_equal.
  pose proof PI_RGT_0 as HPI.
  set (q := (x + PI) / (2 * PI)).
  assert (Hq : x + PI = q * (2 * PI)) by (unfold q; field; lra).
  replace (Int_part q) with (- k)%Z.
  - rewrite opp_IZR. lra.
  - apply Int_part_spec. rewrite opp_IZR.
    assert (Hw' : w + PI = (q + IZR k) * (2 * PI)) by lra.
    split; nra.
Qed.

Lemma wrap_pi_repr (x : R) :
  exists (w : R) (k : Z), _wrap_pi x = Ok w /\ w = x + 2 * PI * IZR k /\ - PI <= w < PI.
Proof.
  pose proof PI_RGT_0 as HPI.
  set (q := (x + PI) / (2 * PI)).
  destruct (base_Int_part q) as [Hlo Hhi].
  assert (Hq : x + PI = q * (2 * PI)) by (unfold q; field; lra).
  exists (x + PI - 2 * PI * IZR (Int_part q) - PI), (- Int_part q)%Z.
  split; [apply wrap_pi_value |].
  rewrite opp_IZR. split; [lra | split; nra].
Qed.

(** X3: in exact arithmetic a difference already in [-pi, pi) is returned
    unchanged, so wrapping twice is wrapping once. *)
Theorem wrap_pi_idempotent (x : R) :
  (- PI <= x < PI -> _wrap_pi x = Ok x)
  /\ exists w, _wrap_pi x = Ok w /\ _wrap_pi w = Ok w.
Proof.
  assert (Hfix : forall y, - PI <= y < PI -> _wrap_pi y = Ok y).
  { intros y Hy. apply (wrap_pi_unique y y 0); [simpl; lra | exact Hy]. }
  split; [apply Hfix |].
  destruct (wrap_pi_repr x) as (w & k & E & _ & Hr).
  exists w. split; [exact E | apply Hfix, Hr].
Qed.

Lemma wrap_pi_idempotent_witness :
  - PI <= 0 < PI /\ _wrap_pi 0 = Ok 0.
Proof.
  pose proof PI_RGT_0.
  split; [lra |].
  apply (wrap_pi_idempotent 0). lra.
Defined.

(** X4: in exact arithmetic, adding a whole number of turns to a
    difference does not change its wrapped value. *)
Theorem wrap_pi_periodic (x : R) (k : Z) :
  _wrap_pi (x + 2 * PI * IZR k) = _wrap_pi x.
Proof.
  destruct (wrap_pi_repr x) as (w & k0 & E & Hw & Hr).
  rewrite E.
  apply (wrap_pi_unique _ w (k0 - k)); [| exact Hr].
  rewrite minus_IZR. lra.
Qed.

(** X5: in exact arithmetic the magnitude of the wrapped difference does
    not depend on the direction of the difference:
    [|wrap(-x)| = |wrap(x)|]. *)
Theorem wrap_pi_abs_symmetric (x : R) :
  exists w w', _wrap_pi x = Ok w /\ _wrap_pi (- x) = Ok w' /\ Rabs w' = Rabs w.
Proof.
  pose proof PI_RGT_0 as HPI.
  destruct (wrap_pi_repr x) as (w & k & E & Hw & Hr).
  destruct (Req_dec_T w (- PI)) as [Heq | Hne].
  - exists w, w. split; [exact E |]. split; [| reflexivity].
    apply (wrap_pi_unique _ w (- k - 1)); [| exact Hr].
    rewrite minus_IZR, opp_IZR. lra.
  - exists w, (- w). split; [exact E |]. split; [| apply Rabs_Ropp].
    apply (wrap_pi_unique _ (- w) (- k)); [rewrite opp_IZR; lra | lra].
Qed.

(** ** The phase-gradient proxy *)

Lemma getitem_int_in_range {A : Type} (l : list A) (i : Z) :
  (- Z.of_nat (length l) <= i < Z.of_nat (length l))%Z ->
  exists x, getitem_int l i = Ok x.
Proof.
  intros Hi. unfold getitem_int, getitem.
  destruct (Z.leb_spec 0 i).
  - destruct (nth_error l (Z.to_nat i)) eqn:E; [eauto |].
    apply nth_error_None in E. lia.
  - destruct (Z.leb_spec (- Z.of_nat (length l)) i); [| lia].
    destruct (nth_error l (Z.to_nat (Z.of_nat (length l) + i))) eqn:E; [eauto |].
    apply nth_error_None in E. lia.
Qed.

Lemma getitem_int_In {A : Type} (l : list A) (i : Z) (x : A) :
  getitem_int l i = Ok x -> In x l.
Proof.
  unfold getitem_int, getitem.
  destruct (0 <=? i)%Z.
  - destruct (nth_error l (Z.to_nat i)) eqn:E; [| discriminate].
    intros H; injection H as <-. eapply nth_error_In; eauto.
  - destruct (- Z.of_nat (length l) <=? i)%Z; [| discriminate].
    destruct (nth_error l _) eqn:E; [| discriminate].
    intros H; injection H as <-. eapply nth_error_In; eauto.
Qed.

Lemma gradient_loop_nonneg (theta_ij X : list (list R)) (j : Z) (N K : nat)
    (edges : list (Z * Z)) :
  length X = N -> length theta_ij = N ->
  Forall (fun row => length row = K) theta_ij ->
  Forall (fun e => (- Z.of_nat N <= fst e < Z.of_nat N)%Z
                   /\ (- Z.of_nat N <= snd e < Z.of_nat N)%Z) edges ->
  (- Z.of_nat K <= j < Z.of_nat K)%Z ->
  forall acc n, 0 <= acc ->
  exists acc' n', gradient_loop theta_ij X j edges acc n = Ok (acc', n') /\ 0 <= acc'.
Proof.
  intros HX Hth HK Hedges Hj.
  induction Hedges as [| [i k] edges [Hi Hk] _ IH]; intros acc n Hacc; simpl in *.
  - eauto.
  - destruct (getitem_int_in_range X i) as [xi ->]; [lia |].
    destruct (getitem_int_in_range X k) as [xk ->]; [lia |].
    simpl.
    destruct (Rleb (sqrt (sqdist xi xk)) 0) eqn:Hd; [apply IH; exact Hacc |].
    apply Rleb_false in Hd.
    destruct (getitem_int_in_range theta_ij i) as [th_i Ei]; [lia |].
    destruct (getitem_int_in_range theta_ij k) as [th_k Ek]; [lia |].
    rewrite Ei, Ek. simpl.
    assert (Li : length th_i = K).
    { rewrite Forall_forall in HK. apply HK. eapply getitem_int_In; eauto. }
    assert (Lk : length th_k = K).
    { rewrite Forall_forall in HK. apply HK. eapply getitem_int_In; eauto. }
    destruct (getitem_int_in_range th_i j) as [th_ij ->]; [lia |].
    destruct (getitem_int_in_range th_k j) as [th_kj ->]; [lia |].
    simpl. rewrite wrap_pi_value. simpl.
    apply IH.
    assert (0 <= Rabs (th_ij - th_kj + PI
                       - 2 * PI * IZR (Int_part ((th_ij - th_kj + PI) / (2 * PI))) - PI)
                 / sqrt (sqdist xi xk)).
    { apply Rmult_le_pos; [apply Rabs_pos | left; apply Rinv_0_lt_compat; lra]. }
    lra.
Qed.

(** X6: in exact arithmetic, when every edge and the column index address
    existing rows and columns (negative indices counting from the end),
    the proxy returns a value, and that value is not negative. *)
Theorem phase_gradient_proxy_nonneg (theta_ij X : list (list R)) (edges : list (Z * Z))
    (j : Z) (N K : nat) :
  length X = N -> length theta_ij = N ->
  Forall (fun row => length row = K) theta_ij ->
  Forall (fun e => (- Z.of_nat N <= fst e < Z.of_nat N)%Z
                   /\ (- Z.of_nat N <= snd e < Z.of_nat N)%Z) edges ->
  (- Z.of_nat K <= j < Z.of_nat K)%Z ->
  exists r, phase_gradient_proxy theta_ij X edges j = Ok r /\ 0 <= r.
Proof.
  intros HX Hth HK Hedges Hj. unfold phase_gradient_proxy.
  destruct (gradient_loop_nonneg theta_ij X j N K edges HX Hth HK Hedges Hj 0 0%nat)
    as (acc & n & -> & Hacc); [lra |].
  simpl. eexists; split; [reflexivity |].
  destruct n as [| n]; simpl; [lra |].
  apply Rmult_le_pos; [exact Hacc |].
  left. apply Rinv_0_lt_compat. apply (lt_0_INR (S n)). lia.
Qed.

Lemma getitem_int_map {A B : Type} (f : A -> B) (l : list A) (i : Z) :
  getitem_int (map f l) i = (x <- getitem_int l i ;; Ok (f x)).
Proof.
  unfold getitem_int, getitem. rewrite length_map.
  destruct (0 <=? i)%Z.
  - rewrite nth_error_map. destruct (nth_error l _); reflexivity.
  - destruct (- Z.of_nat (length l) <=? i)%Z; [| reflexivity].
    rewrite nth_error_map. destruct (nth_error l _); reflexivity.
Qed.

Lemma gradient_loop_shift (c : R) (theta_ij X : list (list R)) (j : Z)
    (edges : list (Z * Z)) (acc : R) (n : nat) :
  gradient_loop (map (map (fun th => th + c)) theta_ij) X j edges acc n
  = gradient_loop theta_ij X j edges acc n.
Proof.
  revert acc n; induction edges as [| [i k] edges IH]; intros acc n; simpl; [reflexivity |].
  destruct (getitem_int X i) as [xi |]; simpl; [| reflexivity].
  destruct (getitem_int X k) as [xk |]; simpl; [| reflexivity].
  destruct (Rleb (sqrt (sqdist xi xk)) 0); [apply IH |].
  rewrite !getitem_int_map.
  destruct (getitem_int theta_ij i) as [th_i |]; simpl; [| reflexivity].
  rewrite getitem_int_map.
  destruct (getitem_int th_i j) as [th_ij |]; simpl; [| reflexivity].
  destruct (getitem_int theta_ij k) as [th_k |]; simpl; [| reflexivity].
  rewrite getitem_int_map.
  destruct (getitem_int th_k j) as [th_kj |]; simpl; [| reflexivity].
  replace (th_ij + c - (th_kj + c)) with (th_ij - th_kj) by ring.
  destruct (_wrap_pi (th_ij - th_kj)); simpl; [apply IH | reflexivity].
Qed.

(** X7: adding the same offset to every phase of the matrix leaves the
    proxy unchanged, result or exception (in exact arithmetic). *)
Theorem phase_gradient_proxy_shift (c : R) (theta_ij X : list (list R))
    (edges : list (Z * Z)) (j : Z) :
  phase_gradient_proxy (map (map (fun th => th + c)) theta_ij) X edges j
  = phase_gradient_proxy theta_ij X edges j.
Proof. unfold phase_gradient_proxy. rewrite gradient_loop_shift. reflexivity. Qed.

Lemma phase_gradient_proxy_nonneg_witness :
  length [[0]; [1]] = 2%nat /\ length [[0]; [PI]] = 2%nat
  /\ Forall (fun row : list R => length row = 1%nat) [[0]; [PI]]
  /\ exists r, phase_gradient_proxy [[0]; [PI]] [[0]; [1]] [(0, 1); (-1, 0)]%Z 0 = Ok r
               /\ 0 <= r.
Proof.
  split; [reflexivity |]. split; [reflexivity |].
  split; [repeat constructor |].
  apply (phase_gradient_proxy_nonneg [[0]; [PI]] [[0]; [1]] [(0, 1); (-1, 0)]%Z 0 2 1);
    [reflexivity | reflexivity | repeat constructor
     | repeat constructor; simpl; lia | lia].
Defined.

(** ** Gates: when they pass and what they report *)

Lemma is_pos_finite_iff (x : pyfloat) : _is_pos_finite x = true <-> positive_finite x.
Proof.
  unfold _is_pos_finite, positive_finite. destruct x as [r | | |]; simpl.
  - rewrite Rltb_true. split.
    + intros Hr. exists r. auto.
    + intros (r' & E & Hr). injection E as <-. exact Hr.
  - split; [discriminate | intros (r & E & _); discriminate].
  - split; [discriminate | intros (r & E & _); discriminate].
  - split; [discriminate | intros (r & E & _); discriminate].
Qed.

Lemma Forall_pos_finite (xs : list pyfloat) :
  Forall (fun x => _is_pos_finite x = true) xs <-> Forall positive_finite xs.
Proof. split; apply Forall_impl; intros x; apply is_pos_finite_iff. Qed.

Lemma gate_44_eligible_inv (nu_i_hz a_j : list pyfloat) (nu0_hz : pyfloat) :
  reports_eligible (gate_44 nu_i_hz a_j nu0_hz) ->
  eligible (gate_11 nu_i_hz a_j nu0_hz true true) = true.
Proof.
  intros (g & E & Hel). unfold gate_44 in E.
  destruct (eligible (gate_11 nu_i_hz a_j nu0_hz true true)); [reflexivity |].
  simpl in E. injection E as <-. discriminate Hel.
Qed.

(** X9: gate 44 reports [eligible=True] exactly when the reference
    frequency is finite and positive, both sequences are non-empty with
    finite positive entries only, and the frequencies hold a value within
    [ANCHOR_TOL_HZ] of 432.0 and one within [ANCHOR_TOL_HZ] of [F_838_776],
    the floats that the literals [1e-3] and [838.776] denote. *)
Theorem gate_44_eligible_iff (nu_i_hz a_j : list pyfloat) (nu0_hz : pyfloat) :
  reports_eligible (gate_44 nu_i_hz a_j nu0_hz) <->
  positive_finite nu0_hz
  /\ nu_i_hz <> [] /\ a_j <> []
  /\ Forall positive_finite nu_i_hz /\ Forall positive_finite a_j
  /\ Exists (near 432) nu_i_hz /\ Exists (near f_838_776) nu_i_hz.
Proof.
  split.
  - intros Hel. apply gate_44_eligible_inv in Hel.
    apply gate_11_eligible in Hel as (H0 & Hn & Ha & HFn & HFa & H432 & H838).
    repeat split; trivial.
    + apply is_pos_finite_iff, H0.
    + apply Forall_pos_finite, HFn.
    + apply Forall_pos_finite, HFa.
    + apply has_anchor_spec; auto.
    + apply has_anchor_spec; auto.
  - intros (H0 & Hn & Ha & HFn & HFa & H432 & H838).
    apply gate_44_passes, gate_11_eligible.
    repeat split; trivial.
    + apply is_pos_finite_iff, H0.
    + apply Forall_pos_finite, HFn.
    + apply Forall_pos_finite, HFa.
    + intros _. apply (has_anchor_spec nu_i_hz 432), H432.
    + intros _. apply (has_anchor_spec nu_i_hz f_838_776), H838.
Qed.

(** X10: gates 22, 33 and 44 never raise: each returns a record carrying
    its own identifier.  When gate 44 is not eligible, its reason and
    details are those of the failed gate-11 check with both anchors
    required; a failure of gate 22 is never what it reports. *)
Theorem gates_always_report (nu_i_hz a_j : list pyfloat) (nu0_hz : pyfloat) :
  (exists g, gate_22 nu_i_hz a_j nu0_hz = Ok g /\ gate_id g = "GATE22"%string)
  /\ (exists g, gate_33 nu_i_hz a_j nu0_hz = Ok g /\ gate_id g = "GATE33"%string)
  /\ (exists g, gate_44 nu_i_hz a_j nu0_hz = Ok g /\ gate_id g = "GATE44"%string
                /\ (eligible g = true
                    \/ (reason g = prereq_failed (gate_11 nu_i_hz a_j nu0_hz true true)
                        /\ details g = details (gate_11 nu_i_hz a_j nu0_hz true true)))).
Proof.
  assert (H22 : exists g, gate_22 nu_i_hz a_j nu0_hz = Ok g /\ gate_id g = "GATE22"%string
                          /\ eligible g = eligible (gate_11 nu_i_hz a_j nu0_hz false false)).
  { unfold gate_22.
    destruct (eligible (gate_11 nu_i_hz a_j nu0_hz false false)); simpl.
    - destruct golden_pi_PHI as (p & -> & Hp).
      destruct bridge_frequency_locked as (b & -> & Hb).
      simpl. rewrite !is_pos_finite_Fin by assumption. simpl.
      eexists; repeat split; reflexivity.
    - eexists; repeat split; reflexivity. }
  destruct H22 as (g22 & E22 & Hid & Hel22).
  split; [exists g22; auto |].
  split.
  - unfold gate_33. rewrite E22. simpl.
    destruct (eligible g22); simpl; eexists; split; reflexivity.
  - unfold gate_44.
    destruct (eligible (gate_11 nu_i_hz a_j nu0_hz true true)) eqn:E11; simpl.
    + rewrite E22. simpl.
      assert (Hdef : eligible (gate_11 nu_i_hz a_j nu0_hz false false) = true).
      { apply gate_11_eligible.
        apply gate_11_eligible in E11 as (H0 & H1 & H2 & H3 & H4 & _).
        repeat split; auto; discriminate. }
      rewrite Hel22, Hdef. simpl.
      eexists; repeat split; try reflexivity. left; reflexivity.
    + eexists; repeat split; try reflexivity. right; split; reflexivity.
Qed.

(** X11: gate 33 passes exactly when gate 22 passes, which is exactly when
    gate 11 passes with its default options; so an eligible gate 44 comes
    with an eligible gate 33. *)
Theorem gate_33_chain (nu_i_hz a_j : list pyfloat) (nu0_hz : pyfloat) :
  (reports_eligible (gate_33 nu_i_hz a_j nu0_hz)
   <-> reports_eligible (gate_22 nu_i_hz a_j nu0_hz))
  /\ (reports_eligible (gate_22 nu_i_hz a_j nu0_hz)
      <-> eligible (gate_11 nu_i_hz a_j nu0_hz false false) = true)
  /\ (reports_eligible (gate_44 nu_i_hz a_j nu0_hz)
      -> reports_eligible (gate_33 nu_i_hz a_j nu0_hz)).
Proof.
  destruct (gate_22_eligible nu_i_hz a_j nu0_hz) as (g22 & E22 & Hel22).
  assert (H33 : reports_eligible (gate_33 nu_i_hz a_j nu0_hz) <-> eligible g22 = true).
  { unfold reports_eligible, gate_33. rewrite E22. simpl.
    destruct (eligible g22); simpl; split.
    - reflexivity.
    - intros _. eexists; split; reflexivity.
    - intros (g & E & Hg). injection E as <-. discriminate Hg.
    - discriminate. }
  assert (H22 : reports_eligible (gate_22 nu_i_hz a_j nu0_hz) <-> eligible g22 = true).
  { unfold reports_eligible. rewrite E22. split.
    - intros (g & E & Hg). injection E as <-. exact Hg.
    - intros Hg. exists g22. auto. }
  split; [rewrite H33, H22; reflexivity |].
  split; [rewrite H22, Hel22; reflexivity |].
  intros H44. apply H33. rewrite Hel22.
  apply gate_44_eligible_inv in H44.
  apply gate_11_eligible.
  apply gate_11_eligible in H44 as (H0 & H1 & H2 & H3 & H4 & _).
  repeat split; auto; discriminate.
Qed.

Lemma gate_33_chain_witness :
  reports_eligible (gate_44 anchors_nu unit_a (Fin 1))
  /\ reports_eligible (gate_33 anchors_nu unit_a (Fin 1)).
Proof.
  split; [exact gate_44_on_anchors |].
  apply (gate_33_chain anchors_nu unit_a (Fin 1)).
  exact gate_44_on_anchors.
Defined.

Lemma golden_pi_PHI_value :
  golden_pi PHI = Ok (Fin (4 / sqrt ((1 + sqrt 5) / 2))).
Proof.
  pose proof (sqrt_pos 5) as H5.
  assert (Hphi : 0 < (1 + sqrt 5) / 2) by lra.
  pose proof (sqrt_lt_R0 _ Hphi) as Hs.
  unfold golden_pi, PHI, fsqrt, bind. decide_R.
  unfold fdiv. decide_R. reflexivity.
Qed.

Lemma bridge_frequency_value :
  bridge_frequency F_432 PI_f PHI = Ok (Fin (432 * (PI / ((1 + sqrt 5) / 2)))).
Proof.
  pose proof (sqrt_pos 5) as H5.
  unfold bridge_frequency, F_432, PI_f, PHI, fdiv, bind. decide_R. reflexivity.
Qed.

(** The record of a passing gate 11. *)
Lemma gate_11_pass_record (nu_i_hz a_j : list pyfloat) (nu0_hz : pyfloat)
    (require_432 require_838 : bool) :
  eligible (gate_11 nu_i_hz a_j nu0_hz require_432 require_838) = true ->
  gate_11 nu_i_hz a_j nu0_hz require_432 require_838
  = mkGateResult "GATE11" true "OK"
      [("has_432"%string, VBool (has_anchor nu_i_hz F_432));
       ("has_838_776"%string, VBool (has_anchor nu_i_hz F_838_776))].
Proof.
  unfold gate_11.
  destruct (_is_pos_finite nu0_hz); cbn [negb]; [| discriminate].
  destruct (length nu_i_hz =? 0)%nat; [discriminate |].
  destruct (length a_j =? 0)%nat; [discriminate |].
  destruct (first_bad 0 nu_i_hz) as [[i x] |]; [discriminate |].
  destruct (first_bad 0 a_j) as [[j x] |]; [discriminate |].
  cbv zeta.
  destruct (require_432 && negb (has_anchor nu_i_hz F_432)); [discriminate |].
  destruct (require_838 && negb (has_anchor nu_i_hz F_838_776)); [discriminate |].
  reflexivity.
Qed.

(** X12: the record of an eligible gate 44 has reason "OK" and the details
    stamp, pi_phi = 4/sqrt(phi), f_bridge = 432 pi/phi, has_432 = True and
    has_838_776 = True, in this order. *)
Theorem gate_44_details (nu_i_hz a_j : list pyfloat) (nu0_hz : pyfloat) :
  reports_eligible (gate_44 nu_i_hz a_j nu0_hz) ->
  gate_44 nu_i_hz a_j nu0_hz
  = Ok (mkGateResult "GATE44" true "OK"
          [("stamp"%string, VStr "Gate44 publish-ready");
           ("pi_phi"%string, VFloat (Fin (4 / sqrt ((1 + sqrt 5) / 2))));
           ("f_bridge"%string, VFloat (Fin (432 * (PI / ((1 + sqrt 5) / 2)))));
           ("has_432"%string, VBool true);
           ("has_838_776"%string, VBool true)]).
Proof.
  intros Hel. apply gate_44_eligible_inv in Hel.
  assert (Hdef : eligible (gate_11 nu_i_hz a_j nu0_hz false false) = true).
  { apply gate_11_eligible.
    pose proof Hel as Hel'.
    apply gate_11_eligible in Hel' as (H0 & H1 & H2 & H3 & H4 & _).
    repeat split; auto; discriminate. }
  pose proof Hel as H11.
  apply gate_11_eligible in H11 as (_ & _ & _ & _ & _ & H432 & H838).
  specialize (H432 eq_refl). specialize (H838 eq_refl).
  unfold gate_44. rewrite Hel. cbn [negb].
  unfold gate_22. rewrite Hdef. cbn [negb].
  rewrite (gate_11_pass_record _ _ _ _ _ Hdef), H432, H838.
  rewrite golden_pi_PHI_value, bridge_frequency_value.
  pose proof (sqrt_pos 5) as H5. pose proof PI_RGT_0 as HPI.
  assert (Hphi : 0 < (1 + sqrt 5) / 2) by lra.
  pose proof (sqrt_lt_R0 _ Hphi) as Hs.
  cbn [bind].
  rewrite !is_pos_finite_Fin;
    [| apply Rmult_lt_0_compat; [lra | apply Rdiv_lt_0_compat; lra]
     | apply Rdiv_lt_0_compat; lra].
  reflexivity.
Qed.

Lemma gate_44_details_witness :
  reports_eligible (gate_44 anchors_nu unit_a (Fin 1))
  /\ exists d, gate_44 anchors_nu unit_a (Fin 1) = Ok (mkGateResult "GATE44" true "OK" d).
Proof.
  split; [exact gate_44_on_anchors |].
  eexists. apply (gate_44_details anchors_nu unit_a (Fin 1)).
  exact gate_44_on_anchors.
Defined.

Lemma first_bad_app (pre post : list pyfloat) (x : pyfloat) (k : nat) :
  Forall positive_finite pre -> ~ positive_finite x ->
  first_bad k (pre ++ x :: post) = Some ((k + length pre)%nat, x).
Proof.
  intros Hpre Hx. revert k; induction Hpre as [| y pre Hy _ IH]; intros k; simpl.
  - destruct (_is_pos_finite x) eqn:E.
    + exfalso. apply Hx, is_pos_finite_iff, E.
    + simpl. rewrite Nat.add_0_r. reflexivity.
  - apply is_pos_finite_iff in Hy. rewrite Hy. simpl.
    rewrite IH. f_equal. f_equal. lia.
Qed.

Lemma first_bad_all_good (xs : list pyfloat) (k : nat) :
  Forall positive_finite xs -> first_bad k xs = None.
Proof. intros HF. apply first_bad_None, Forall_pos_finite, HF. Qed.

(** X13: gate 11 names the first offending entry.  With a valid reference
    frequency, when the first frequency that is not finite and positive sits
    at index [i], the reason is "nu_i_hz[i] must be finite and > 0" and the
    details hold that value; likewise "a_j[j] ..." for the first offending
    scale once all frequencies are valid. *)
Theorem gate_11_first_offender (pre post : list pyfloat) (x nu0_hz : pyfloat)
    (require_432 require_838 : bool) :
  positive_finite nu0_hz -> Forall positive_finite pre -> ~ positive_finite x ->
  (forall a_j, a_j <> [] ->
     gate_11 (pre ++ x :: post) a_j nu0_hz require_432 require_838
     = mkGateResult "GATE11" false
         ("nu_i_hz[" ++ str_of_nat (length pre) ++ "] must be finite and > 0")%string
         [("value"%string, VFloat x)])
  /\ (forall nu_i_hz, nu_i_hz <> [] -> Forall positive_finite nu_i_hz ->
        gate_11 nu_i_hz (pre ++ x :: post) nu0_hz require_432 require_838
        = mkGateResult "GATE11" false
            ("a_j[" ++ str_of_nat (length pre) ++ "] must be finite and > 0")%string
            [("value"%string, VFloat x)]).
Proof.
  intros H0 Hpre Hx. apply is_pos_finite_iff in H0.
  assert (Hlen : forall l : list pyfloat, l <> [] -> (length l =? 0)%nat = false).
  { intros [| y l] Hl; [congruence | reflexivity]. }
  assert (Hbad : (length (pre ++ x :: post) =? 0)%nat = false).
  { apply Hlen. destruct pre; discriminate. }
  split.
  - intros a_j Ha. unfold gate_11. rewrite H0, Hbad, (Hlen a_j Ha). cbn [negb].
    rewrite (first_bad_app pre post x 0 Hpre Hx). reflexivity.
  - intros nu_i_hz Hn HF. unfold gate_11. rewrite H0, Hbad, (Hlen nu_i_hz Hn). cbn [negb].
    rewrite (first_bad_all_good nu_i_hz 0 HF).
    rewrite (first_bad_app pre post x 0 Hpre Hx). reflexivity.
Qed.

Lemma gate_11_first_offender_witness :
  positive_finite (Fin 1) /\ Forall positive_finite [Fin 432; Fin 5] /\ ~ positive_finite NaN
  /\ gate_11 [Fin 432; Fin 5; NaN; Fin 0] [Fin 1] (Fin 1) false false
     = mkGateResult "GATE11" false "nu_i_hz[2] must be finite and > 0"
         [("value"%string, VFloat NaN)].
Proof.
  assert (H1 : positive_finite (Fin 1)) by (exists 1; split; [reflexivity | lra]).
  assert (Hp : Forall positive_finite [Fin 432; Fin 5]).
  { repeat constructor; eexists; (split; [reflexivity | lra]). }
  assert (Hn : ~ positive_finite NaN) by (intros (r & E & _); discriminate).
  split; [exact H1 |]. split; [exact Hp |]. split; [exact Hn |].
  apply (gate_11_first_offender [Fin 432; Fin 5] [Fin 0] NaN (Fin 1) false false H1 Hp Hn).
  discriminate.
Defined.

(** ** Matrix construction: when it succeeds and what it returns *)

Lemma check_entries_pass (nf np : nat -> value_error) (rs : list R) (i : nat) :
  Forall (fun r => 0 < r) rs -> check_entries nf np i (map Fin rs) = Ok tt.
Proof.
  intros HF. revert i; induction HF as [| r rs Hr _ IH]; intros i; simpl; [reflexivity |].
  decide_R. apply IH.
Qed.

Lemma theta_row_Fin (i : nat) (row : list R) (j : nat) :
  theta_row i j (map Fin row) = Ok row.
Proof.
  revert j; induction row as [| th row IH]; intros j; simpl; [reflexivity |].
  rewrite IH. reflexivity.
Qed.

Lemma theta_rows_Fin (K : nat) (thetas : list (list R)) (i : nat) :
  Forall (fun row => length row = K) thetas ->
  theta_rows K i (map (map Fin) thetas) = Ok thetas.
Proof.
  intros HF. revert i; induction HF as [| row thetas Hrow _ IH]; intros i; simpl;
    [reflexivity |].
  rewrite length_map, Hrow, Nat.eqb_refl. simpl.
  rewrite theta_row_Fin. simpl. rewrite IH. reflexivity.
Qed.

Lemma skipn_uncons {A : Type} (l : list A) (n m : nat) :
  length (skipn n l) = S m ->
  exists x, nth_error l n = Some x /\ skipn n l = x :: skipn (S n) l.
Proof.
  revert n; induction l as [| y l IH]; intros n Hlen.
  - destruct n; discriminate.
  - destruct n as [| n].
    + exists y. split; reflexivity.
    + simpl in Hlen. destruct (IH n Hlen) as (x & E1 & E2).
      exists x. split; [exact E1 | exact E2].
Qed.

Lemma mjlog_cell_value (theta : list (list R)) (row : list R)
    (n0 nu a th : R) (i j : nat) :
  0 < n0 -> 0 < nu -> 0 < a ->
  nth_error theta i = Some row -> nth_error row j = Some th ->
  mjlog_cell theta (Fin n0) i (Fin nu) j (Fin a) = Ok (mjlog_value n0 nu a th).
Proof.
  intros Hn0 Hnu Ha Hrow Hth.
  assert (Harg : 0 < nu / n0 * a).
  { apply Rmult_lt_0_compat; [apply Rdiv_lt_0_compat |]; assumption. }
  unfold mjlog_cell, log_argument, fdiv. decide_R. simpl. decide_R.
  unfold getitem. rewrite Hrow. simpl. rewrite Hth. simpl.
  rewrite Cexp_i. unfold mjlog_value, Cmul, RtoC; simpl. do 2 f_equal; ring.
Qed.

Lemma mjlog_row_value (theta : list (list R)) (row : list R) (n0 nu : R) (i : nat) :
  0 < n0 -> 0 < nu -> nth_error theta i = Some row ->
  forall (a : list R) (j0 : nat),
  Forall (fun r => 0 < r) a -> length (skipn j0 row) = length a ->
  mjlog_row theta (Fin n0) i (Fin nu) j0 (map Fin a)
  = Ok (map (fun a_th => mjlog_value n0 nu (fst a_th) (snd a_th)) (combine a (skipn j0 row))).
Proof.
  intros Hn0 Hnu Hrow a j0 Ha. revert j0.
  induction Ha as [| aj a Haj _ IH]; intros j0 Hlen; simpl; [reflexivity |].
  destruct (skipn_uncons row j0 (length a) Hlen) as (th & Hth & Hskip).
  rewrite (mjlog_cell_value theta row n0 nu aj th i j0) by assumption.
  simpl. rewrite IH, Hskip; [reflexivity |].
  rewrite Hskip in Hlen. cbn [length] in Hlen. lia.
Qed.

Lemma mjlog_rows_value (theta : list (list R)) (n0 : R) (a : list R) :
  0 < n0 -> Forall (fun r => 0 < r) a ->
  Forall (fun row => length row = length a) theta ->
  forall (nus : list R) (i0 : nat),
  Forall (fun r => 0 < r) nus -> length (skipn i0 theta) = length nus ->
  mjlog_rows theta (Fin n0) i0 (map Fin nus) (map Fin a)
  = Ok (map (fun nu_row =>
               map (fun a_th => mjlog_value n0 (fst nu_row) (fst a_th) (snd a_th))
                   (combine a (snd nu_row)))
            (combine nus (skipn i0 theta))).
Proof.
  intros Hn0 Ha HK nus i0 Hnus. revert i0.
  induction Hnus as [| nu nus Hnu _ IH]; intros i0 Hlen; simpl; [reflexivity |].
  destruct (skipn_uncons theta i0 (length nus) Hlen) as (row & Hrow & Hskip).
  assert (Hrl : length row = length a).
  { rewrite Forall_forall in HK. apply HK. eapply nth_error_In; eauto. }
  rewrite (mjlog_row_value theta row n0 nu i0 Hn0 Hnu Hrow a 0 Ha) by (simpl; exact Hrl).
  simpl. rewrite IH, Hskip; [reflexivity |].
  rewrite Hskip in Hlen. cbn [length] in Hlen. lia.
Qed.

(** X14: in exact arithmetic, with a positive reference frequency,
    positive frequencies and scales, and a supplied N x K matrix of finite
    phases, [mjlog] returns
    the N x K matrix whose cell (i, j) is
    [ln((nu[i]/nu0) a[j]) (cos theta[i][j] + i sin theta[i][j])]. *)
Theorem mjlog_with_theta (nus a : list R) (n0 : R) (thetas : list (list R)) :
  0 < n0 -> Forall (fun r => 0 < r) nus -> Forall (fun r => 0 < r) a ->
  length thetas = length nus -> Forall (fun row => length row = length a) thetas ->
  mjlog (map Fin nus) (map Fin a) (Fin n0) (Some (map (map Fin) thetas))
  = Ok (map (fun nu_row =>
               map (fun a_th => mjlog_value n0 (fst nu_row) (fst a_th) (snd a_th))
                   (combine a (snd nu_row)))
            (combine nus thetas)).
Proof.
  intros Hn0 Hnus Ha HN HK.
  unfold mjlog. simpl. decide_R.
  rewrite !check_entries_pass by assumption. simpl.
  rewrite !length_map, HN, Nat.eqb_refl. simpl.
  rewrite theta_rows_Fin by exact HK. simpl.
  apply (mjlog_rows_value thetas n0 a Hn0 Ha HK nus 0 Hnus). simpl. exact HN.
Qed.

Lemma mjlog_with_theta_witness :
  0 < 432 /\ Forall (fun r => 0 < r) [432; 434] /\ Forall (fun r => 0 < r) [1; 2]
  /\ mjlog [Fin 432; Fin 434] [Fin 1; Fin 2] (Fin 432)
           (Some [[Fin 0; Fin PI]; [Fin 1; Fin 2]])
     = Ok [[mjlog_value 432 432 1 0; mjlog_value 432 432 2 PI];
           [mjlog_value 432 434 1 1; mjlog_value 432 434 2 2]].
Proof.
  split; [lra |].
  split; [repeat constructor; lra |].
  split; [repeat constructor; lra |].
  apply (mjlog_with_theta [432; 434] [1; 2] 432 [[0; PI]; [1; 2]]);
    [lra | repeat constructor; lra | repeat constructor; lra | reflexivity
     | repeat constructor].
Defined.

Lemma combine_repeat_map {A B D : Type} (f : A * B -> D) (l : list A) (c : B) :
  map f (combine l (repeat c (length l))) = map (fun x => f (x, c)) l.
Proof. induction l as [| x l IH]; simpl; [reflexivity | rewrite IH; reflexivity]. Qed.

(** X15: in exact arithmetic, when the phase matrix is omitted, the result
    is the real matrix of log-amplitudes: cell (i, j) is
    [ln((nu[i]/nu0) a[j])] with zero imaginary part. *)
Theorem mjlog_real (nus a : list R) (n0 : R) :
  0 < n0 -> Forall (fun r => 0 < r) nus -> Forall (fun r => 0 < r) a ->
  mjlog (map Fin nus) (map Fin a) (Fin n0) None
  = Ok (map (fun nu => map (fun aj => (ln (nu / n0 * aj), 0)) a) nus).
Proof.
  intros Hn0 Hnus Ha.
  unfold mjlog. simpl. decide_R.
  rewrite !check_entries_pass by assumption. simpl.
  rewrite !length_map.
  assert (HK : Forall (fun row => length row = length a)
                      (repeat (repeat 0 (length a)) (length nus))).
  { apply Forall_forall. intros r Hr. apply repeat_spec in Hr. subst r.
    apply repeat_length. }
  rewrite (mjlog_rows_value _ n0 a Hn0 Ha HK nus 0 Hnus)
    by (simpl; apply repeat_length).
  simpl. f_equal.
  rewrite (combine_repeat_map
             (fun nu_row => map (fun a_th => mjlog_value n0 (fst nu_row) (fst a_th) (snd a_th))
                                (combine a (snd nu_row)))).
  apply map_ext. intros nu. simpl.
  rewrite (combine_repeat_map (fun a_th => mjlog_value n0 nu (fst a_th) (snd a_th))).
  apply map_ext. intros aj. unfold mjlog_value; simpl.
  rewrite cos_0, sin_0. f_equal; ring.
Qed.

Lemma mjlog_real_witness :
  0 < 432 /\ Forall (fun r => 0 < r) [432; 434] /\ Forall (fun r => 0 < r) [1; 1618 / 1000]
  /\ mjlog [Fin 432; Fin 434] [Fin 1; Fin (1618 / 1000)] (Fin 432) None
     = Ok [[(ln (432 / 432 * 1), 0); (ln (432 / 432 * (1618 / 1000)), 0)];
           [(ln (434 / 432 * 1), 0); (ln (434 / 432 * (1618 / 1000)), 0)]].
Proof.
  split; [lra |].
  split; [repeat constructor; lra |].
  split; [repeat constructor; lra |].
  apply (mjlog_real [432; 434] [1; 1618 / 1000] 432);
    [lra | repeat constructor; lra | repeat constructor; lra].
Defined.

Lemma check_entries_good (nf np : nat -> value_error) (xs : list pyfloat) (k : nat) :
  Forall positive_finite xs -> check_entries nf np k xs = Ok tt.
Proof.
  intros HF. revert k; induction HF as [| x xs (r & -> & Hr) _ IH]; intros k; simpl;
    [reflexivity |].
  decide_R. apply IH.
Qed.

Lemma check_entries_first (nf np : nat -> value_error) (pre post : list pyfloat)
    (x : pyfloat) (k : nat) :
  Forall positive_finite pre -> ~ positive_finite x ->
  check_entries nf np k (pre ++ x :: post)
  = Raise (ValueError (if isfinite x then np (k + length pre)%nat
                       else nf (k + length pre)%nat)).
Proof.
  intros Hpre Hx. revert k; induction Hpre as [| y pre (r & -> & Hr) _ IH]; intros k; simpl.
  - rewrite Nat.add_0_r. destruct x as [r | | |]; simpl; try reflexivity.
    assert (Hr : r <= 0).
    { destruct (Rle_dec r 0) as [H | H]; [exact H |].
      exfalso. apply Hx. exists r. split; [reflexivity | lra]. }
    decide_R. reflexivity.
  - decide_R. rewrite IH.
    replace (S k + length pre)%nat with (k + S (length pre))%nat by lia. reflexivity.
Qed.

Lemma positive_finite_reals (xs : list pyfloat) :
  Forall positive_finite xs ->
  exists rs, xs = map Fin rs /\ Forall (fun r => 0 < r) rs.
Proof.
  intros HF. induction HF as [| x xs (r & -> & Hr) _ (rs & -> & Hrs)].
  - exists []. split; [reflexivity | constructor].
  - exists (r :: rs). split; [reflexivity | constructor; assumption].
Qed.

Lemma finite_reals (row : list pyfloat) :
  Forall (fun th => isfinite th = true) row -> exists ts, row = map Fin ts.
Proof.
  intros HF. induction HF as [| th row Hth _ (ts & ->)].
  - exists []. reflexivity.
  - destruct th as [t | | |]; try discriminate. exists (t :: ts). reflexivity.
Qed.

Lemma finite_matrix_reals (K : nat) (rows : list (list pyfloat)) :
  Forall (fun row => length row = K /\ Forall (fun th => isfinite th = true) row) rows ->
  exists thetas, rows = map (map Fin) thetas /\ Forall (fun row => length row = K) thetas.
Proof.
  intros HF. induction HF as [| row rows [Hlen Hfin] _ (thetas & -> & HK)].
  - exists []. split; [reflexivity | constructor].
  - destruct (finite_reals row Hfin) as (ts & ->).
    exists (ts :: thetas). split; [reflexivity |].
    constructor; [rewrite length_map in Hlen; exact Hlen | exact HK].
Qed.

Lemma theta_row_inv (i : nat) (row : list pyfloat) (j : nat) (row_f : list R) :
  theta_row i j row = Ok row_f -> Forall (fun th => isfinite th = true) row.
Proof.
  revert j row_f; induction row as [| th row IH]; intros j row_f; simpl; [constructor |].
  destruct th; try discriminate.
  destruct (theta_row i (S j) row) eqn:E; [| discriminate].
  intros _. constructor; [reflexivity | eapply IH; exact E].
Qed.

Lemma theta_rows_inv (K : nat) (rows : list (list pyfloat)) (i : nat) (theta : list (list R)) :
  theta_rows K i rows = Ok theta ->
  Forall (fun row => length row = K /\ Forall (fun th => isfinite th = true) row) rows.
Proof.
  revert i theta; induction rows as [| row rows IH]; intros i theta; simpl; [constructor |].
  destruct (Nat.eqb_spec (length row) K) as [EK | EK]; simpl; [| discriminate].
  destruct (theta_row i 0 row) eqn:Er; simpl; [| discriminate].
  destruct (theta_rows K (S i) rows) eqn:Es; simpl; [| discriminate].
  intros _. constructor.
  - split; [exact EK | eapply theta_row_inv; exact Er].
  - eapply IH; exact Es.
Qed.

(** What a returned matrix tells about the inputs. *)
Lemma mjlog_Ok_inv (nu_i_hz a_j : list pyfloat) (nu0_hz : pyfloat)
    (theta_ij : option (list (list pyfloat))) (M : list (list complex)) :
  mjlog nu_i_hz a_j nu0_hz theta_ij = Ok M ->
  positive_finite nu0_hz
  /\ Forall positive_finite nu_i_hz /\ Forall positive_finite a_j
  /\ theta_well_formed (length nu_i_hz) (length a_j) theta_ij.
Proof.
  intros E. unfold mjlog in E.
  destruct nu0_hz as [n0 | | |]; simpl in E; try discriminate.
  destruct (Rleb n0 0) eqn:Hn0; [discriminate |]. apply Rleb_false in Hn0.
  destruct (check_entries NuNotFinite NuNotPositive 0 nu_i_hz) as [[] |] eqn:Hnu;
    simpl in E; [| discriminate].
  destruct (check_entries ANotFinite ANotPositive 0 a_j) as [[] |] eqn:Ha;
    simpl in E; [| discriminate].
  split; [exists n0; auto |].
  split; [eapply check_entries_Ok; exact Hnu |].
  split; [eapply check_entries_Ok; exact Ha |].
  destruct theta_ij as [rows |]; simpl in *; [| exact I].
  destruct (Nat.eqb_spec (length rows) (length nu_i_hz)) as [EN | EN]; simpl in E;
    [| discriminate].
  destruct (theta_rows (length a_j) 0 rows) eqn:Hth; simpl in E; [| discriminate].
  split; [exact EN | eapply theta_rows_inv; exact Hth].
Qed.

(** X16: in exact arithmetic [mjlog] returns a matrix exactly when the
    reference frequency, every frequency and every scale are finite and
    positive and the phase matrix, if supplied, has N rows of K finite
    entries; every other input raises. *)
Theorem mjlog_succeeds_iff (nu_i_hz a_j : list pyfloat) (nu0_hz : pyfloat)
    (theta_ij : option (list (list pyfloat))) :
  (exists M, mjlog nu_i_hz a_j nu0_hz theta_ij = Ok M)
  <-> positive_finite nu0_hz
      /\ Forall positive_finite nu_i_hz /\ Forall positive_finite a_j
      /\ theta_well_formed (length nu_i_hz) (length a_j) theta_ij.
Proof.
  split.
  - intros [M E]. eapply mjlog_Ok_inv; exact E.
  - intros ((n0 & -> & Hn0) & Hnu & Ha & Hth).
    destruct (positive_finite_reals _ Hnu) as (nus & -> & Hnus).
    destruct (positive_finite_reals _ Ha) as (a & -> & Has).
    unfold mjlog. simpl. decide_R.
    rewrite !check_entries_pass by assumption. simpl.
    rewrite !length_map in *.
    destruct theta_ij as [rows |]; simpl in *.
    + destruct Hth as [HN HF].
      destruct (finite_matrix_reals _ _ HF) as (thetas & -> & HK).
      rewrite length_map in HN. rewrite length_map, HN, Nat.eqb_refl. simpl.
      rewrite theta_rows_Fin by exact HK. simpl.
      rewrite (mjlog_rows_value thetas n0 a Hn0 Has HK nus 0 Hnus) by (simpl; exact HN).
      eauto.
    + rewrite (mjlog_rows_value _ n0 a Hn0 Has) with (nus := nus) (i0 := 0%nat);
        [eauto | | exact Hnus | simpl; apply repeat_length].
      apply Forall_forall. intros r Hr. apply repeat_spec in Hr. subst r.
      apply repeat_length.
Qed.

(** X17: [mjlog] names the first offending entry.  With a valid reference
    frequency, the first frequency that is not finite and positive, at
    index [i], raises "nu_i_hz[i] must be finite" or "... must be > 0",
    whatever the scales and phases are; with valid frequencies the same
    holds for the first offending scale. *)
Theorem mjlog_first_offender (pre post : list pyfloat) (x nu0_hz : pyfloat) :
  positive_finite nu0_hz -> Forall positive_finite pre -> ~ positive_finite x ->
  (forall a_j theta_ij,
     mjlog (pre ++ x :: post) a_j nu0_hz theta_ij
     = Raise (ValueError (if isfinite x then NuNotPositive (length pre)
                          else NuNotFinite (length pre))))
  /\ (forall nu_i_hz theta_ij, Forall positive_finite nu_i_hz ->
        mjlog nu_i_hz (pre ++ x :: post) nu0_hz theta_ij
        = Raise (ValueError (if isfinite x then ANotPositive (length pre)
                             else ANotFinite (length pre)))).
Proof.
  intros (n0 & -> & Hn0) Hpre Hx. split.
  - intros a_j theta_ij. unfold mjlog. simpl. decide_R.
    rewrite (check_entries_first _ _ pre post x 0 Hpre Hx). reflexivity.
  - intros nu_i_hz theta_ij Hnu. unfold mjlog. simpl. decide_R.
    rewrite (check_entries_good _ _ nu_i_hz 0 Hnu). simpl.
    rewrite (check_entries_first _ _ pre post x 0 Hpre Hx). reflexivity.
Qed.

Lemma mjlog_first_offender_witness :
  positive_finite (Fin 432) /\ Forall positive_finite [Fin 432] /\ ~ positive_finite PInf
  /\ mjlog [Fin 432; PInf; Fin 0] [Fin 1] (Fin 432) None = Raise (ValueError (NuNotFinite 1)).
Proof.
  assert (H0 : positive_finite (Fin 432)) by (exists 432; split; [reflexivity | lra]).
  assert (Hp : Forall positive_finite [Fin 432]) by (repeat constructor; exact H0).
  assert (Hn : ~ positive_finite PInf) by (intros (r & E & _); discriminate).
  split; [exact H0 |]. split; [exact Hp |]. split; [exact Hn |].
  apply (mjlog_first_offender [Fin 432] [Fin 0] PInf (Fin 432) H0 Hp Hn).
Defined.

Lemma theta_row_finite (i : nat) (row : list pyfloat) (j : nat) :
  Forall (fun th => isfinite th = true) row -> exists row_f, theta_row i j row = Ok row_f.
Proof.
  intros HF. destruct (finite_reals row HF) as (ts & ->).
  exists ts. apply theta_row_Fin.
Qed.

Lemma theta_rows_first (K : nat) (pre post : list (list pyfloat)) (row : list pyfloat)
    (i : nat) :
  Forall (fun r => length r = K /\ Forall (fun th => isfinite th = true) r) pre ->
  length row <> K ->
  theta_rows K i (pre ++ row :: post)
  = Raise (ValueError (ThetaRowLength (i + length pre) (length row) K)).
Proof.
  intros Hpre Hrow. revert i; induction Hpre as [| r pre [Hl Hf] _ IH]; intros i; simpl.
  - rewrite Nat.add_0_r.
    destruct (Nat.eqb_spec (length row) K); [contradiction | reflexivity].
  - rewrite Hl, Nat.eqb_refl. simpl.
    destruct (theta_row_finite i r 0 Hf) as [row_f ->]. simpl.
    rewrite IH. simpl.
    replace (S (i + length pre))%nat with (i + S (length pre))%nat by lia. reflexivity.
Qed.

(** X18: shape errors of the phase matrix.  With valid frequencies,
    scales and reference frequency, a supplied matrix whose row count is not
    [len(nu)] raises the row-count error; with the right row count, the
    first row whose length is not [len(a)] raises the row-length error
    carrying its index and the two lengths. *)
Theorem mjlog_theta_shape_errors (nu_i_hz a_j : list pyfloat) (nu0_hz : pyfloat) :
  positive_finite nu0_hz -> Forall positive_finite nu_i_hz -> Forall positive_finite a_j ->
  (forall rows, length rows <> length nu_i_hz ->
     mjlog nu_i_hz a_j nu0_hz (Some rows)
     = Raise (ValueError (ThetaRowCount (length rows) (length nu_i_hz))))
  /\ (forall pre row post,
        length (pre ++ row :: post) = length nu_i_hz ->
        Forall (fun r => length r = length a_j
                         /\ Forall (fun th => isfinite th = true) r) pre ->
        length row <> length a_j ->
        mjlog nu_i_hz a_j nu0_hz (Some (pre ++ row :: post))
        = Raise (ValueError (ThetaRowLength (length pre) (length row) (length a_j)))).
Proof.
  intros (n0 & -> & Hn0) Hnu Ha.
  assert (Hstart : forall theta_ij,
            mjlog nu_i_hz a_j (Fin n0) theta_ij
            = (theta <- theta_of (length nu_i_hz) (length a_j) theta_ij ;;
               mjlog_rows theta (Fin n0) 0 nu_i_hz a_j)).
  { intros theta_ij. unfold mjlog. simpl. decide_R.
    rewrite !check_entries_good by assumption. reflexivity. }
  split.
  - intros rows Hrows. rewrite Hstart. simpl.
    destruct (Nat.eqb_spec (length rows) (length nu_i_hz)); [contradiction | reflexivity].
  - intros pre row post HN Hpre Hrow. rewrite Hstart. simpl.
    rewrite HN, Nat.eqb_refl. simpl.
    rewrite (theta_rows_first _ pre post row 0 Hpre Hrow). reflexivity.
Qed.

Lemma mjlog_theta_shape_errors_witness :
  positive_finite (Fin 432) /\ Forall positive_finite [Fin 432; Fin 434]
  /\ Forall positive_finite [Fin 1; Fin 2]
  /\ mjlog [Fin 432; Fin 434] [Fin 1; Fin 2] (Fin 432) (Some [[Fin 0; Fin 0]])
     = Raise (ValueError (ThetaRowCount 1 2)).
Proof.
  assert (H0 : positive_finite (Fin 432)) by (exists 432; split; [reflexivity | lra]).
  assert (Hnu : Forall positive_finite [Fin 432; Fin 434]).
  { repeat constructor; eexists; (split; [reflexivity | lra]). }
  assert (Ha : Forall positive_finite [Fin 1; Fin 2]).
  { repeat constructor; eexists; (split; [reflexivity | lra]). }
  split; [exact H0 |]. split; [exact Hnu |]. split; [exact Ha |].
  apply (mjlog_theta_shape_errors [Fin 432; Fin 434] [Fin 1; Fin 2] (Fin 432) H0 Hnu Ha).
  simpl. lia.
Defined.

(** ** Retarded delays and the retarded matrix *)

Lemma dist2_Fin_acc (xi xs : list R) (acc : R) :
  fold_left (fun d2 ab => fadd d2 (fsquare (fsub (fst ab) (snd ab))))
            (combine (map Fin xi) (map Fin xs)) (Fin acc)
  = Fin (fold_left (fun d2 (ab : R * R) => d2 + (fst ab - snd ab) * (fst ab - snd ab))
                   (combine xi xs) acc).
Proof.
  revert xs acc; induction xi as [| a xi IH]; intros xs acc; [reflexivity |].
  destruct xs as [| b xs]; [reflexivity |].
  simpl. rewrite <- IH. reflexivity.
Qed.

Lemma dist2_Fin (xi xs : list R) :
  dist2 (map Fin xi) (map Fin xs) = Fin (sqdist xi xs).
Proof. apply dist2_Fin_acc. Qed.

Lemma sqdist_nonneg (xi xs : list R) : 0 <= sqdist xi xs.
Proof.
  unfold sqdist.
  assert (H : forall l acc, 0 <= acc ->
            0 <= fold_left (fun d2 (ab : R * R) => d2 + (fst ab - snd ab) * (fst ab - snd ab))
                           l acc).
  { induction l as [| ab l IH]; intros acc Hacc; simpl; [exact Hacc |].
    apply IH. pose proof (Rle_0_sqr (fst ab - snd ab)) as Hs. unfold Rsqr in Hs. lra. }
  apply H. lra.
Qed.

Lemma delays_loop_value (Xr : list (list R)) (xs : list R) (vr : R) :
  0 < vr -> Forall (fun xi => length xi = length xs) Xr ->
  delays_loop (map Fin xs) (Fin vr) (map (map Fin) Xr)
  = Ok (map Fin (map (fun xi => sqrt (sqdist xi xs) / vr) Xr)).
Proof.
  intros Hv HF. induction HF as [| xi Xr Hxi _ IH]; simpl; [reflexivity |].
  rewrite !length_map, Hxi, Nat.eqb_refl. simpl.
  rewrite dist2_Fin. unfold fsqrt.
  pose proof (sqdist_nonneg xi xs) as Hd. decide_R.
  simpl. decide_R. rewrite IH. reflexivity.
Qed.

Lemma theta_row_reals (n0 t tau : R) (a : list R) :
  map (theta_cell (Fin t) (Fin tau))
      (combine (map (Omega_of (Fin n0)) (map Fin a)) (repeat (Fin 0) (length a)))
  = map Fin (map (fun aj => 2 * PI * n0 * aj * (t - tau) + 0) a).
Proof. induction a as [| aj a IH]; simpl; [reflexivity | rewrite IH; reflexivity]. Qed.

Lemma retarded_phase_matrix_reals (a taus : list R) (n0 t : R) :
  retarded_phase_matrix (map Fin a) (map Fin taus) (Fin n0) (Fin t) None
  = Ok (map (map Fin)
            (map (fun tau => map (fun aj => 2 * PI * n0 * aj * (t - tau) + 0) a) taus)).
Proof.
  unfold retarded_phase_matrix, psi_or_zeros.
  rewrite repeat_length, Nat.eqb_refl. simpl. f_equal.
  rewrite length_map.
  induction taus as [| tau taus IH]; simpl; [reflexivity |].
  rewrite IH, theta_row_reals. reflexivity.
Qed.

(** X20: end to end and in exact arithmetic, on finite positions, one
    position per frequency,
    positive frequencies, scales, reference frequency and speed,
    [build_retarded_mjlog] returns the delays [tau[i] = |X[i] - x*| / v],
    the phases [theta[i][j] = 2 pi nu0 a[j] (t - tau[i])] and the matrix
    [M[i][j] = ln((nu[i]/nu0) a[j]) exp(i theta[i][j])]. *)
Theorem build_retarded_mjlog_value (Xr : list (list R)) (nus a xs : list R) (n0 vr t : R) :
  0 < vr -> 0 < n0 ->
  Forall (fun r => 0 < r) nus -> Forall (fun r => 0 < r) a ->
  Forall (fun xi => length xi = length xs) Xr -> length Xr = length nus ->
  let taus := map (fun xi => sqrt (sqdist xi xs) / vr) Xr in
  let thetas := map (fun tau => map (fun aj => 2 * PI * n0 * aj * (t - tau) + 0) a) taus in
  build_retarded_mjlog (map (map Fin) Xr) (map Fin nus) (map Fin a) (Fin n0)
                       (map Fin xs) (Fin vr) (Fin t)
  = Ok (map (fun nu_row =>
               map (fun a_th => mjlog_value n0 (fst nu_row) (fst a_th) (snd a_th))
                   (combine a (snd nu_row)))
            (combine nus thetas),
        map (map Fin) thetas, map Fin taus).
Proof.
  intros Hv Hn0 Hnus Ha HX HN taus thetas.
  unfold build_retarded_mjlog, retarded_delays. simpl. decide_R.
  rewrite delays_loop_value by assumption. fold taus. simpl.
  rewrite retarded_phase_matrix_reals. fold thetas. simpl.
  assert (HK : Forall (fun row => length row = length a) thetas).
  { apply Forall_forall. intros row Hrow. unfold thetas in Hrow.
    apply in_map_iff in Hrow as (tau & <- & _). apply length_map. }
  assert (HNt : length thetas = length nus).
  { unfold thetas, taus. rewrite !length_map. exact HN. }
  unfold mjlog. simpl. decide_R.
  rewrite !check_entries_pass by assumption. simpl.
  rewrite !length_map. rewrite HNt, Nat.eqb_refl. simpl.
  rewrite theta_rows_Fin by exact HK. simpl.
  rewrite (mjlog_rows_value thetas n0 a Hn0 Ha HK nus 0 Hnus) by (simpl; exact HNt).
  reflexivity.
Qed.

Lemma build_retarded_mjlog_value_witness :
  0 < 1 /\ 0 < 432 /\ Forall (fun r => 0 < r) [432; 434] /\ Forall (fun r => 0 < r) [1; 2]
  /\ Forall (fun xi : list R => length xi = length [0; 0]) [[3; 4]; [0; 0]]
  /\ exists M theta tau,
       build_retarded_mjlog [[Fin 3; Fin 4]; [Fin 0; Fin 0]] [Fin 432; Fin 434]
                            [Fin 1; Fin 2] (Fin 432) [Fin 0; Fin 0] (Fin 1) (Fin 0)
       = Ok (M, theta, tau).
Proof.
  split; [lra |]. split; [lra |].
  split; [repeat constructor; lra |]. split; [repeat constructor; lra |].
  split; [repeat constructor |].
  do 3 eexists.
  apply (build_retarded_mjlog_value [[3; 4]; [0; 0]] [432; 434] [1; 2] [0; 0] 432 1 0);
    [lra | lra | repeat constructor; lra | repeat constructor; lra
     | repeat constructor | reflexivity].
Defined.

(** X21: with otherwise valid inputs, a number of positions other than the
    number of frequencies makes [build_retarded_mjlog] raise the row-count
    error of [mjlog]: the phase matrix has one row per position. *)
Theorem build_retarded_mjlog_row_count (Xr : list (list R)) (nus a xs : list R)
    (n0 vr t : R) :
  0 < vr -> 0 < n0 ->
  Forall (fun r => 0 < r) nus -> Forall (fun r => 0 < r) a ->
  Forall (fun xi => length xi = length xs) Xr -> length Xr <> length nus ->
  build_retarded_mjlog (map (map Fin) Xr) (map Fin nus) (map Fin a) (Fin n0)
                       (map Fin xs) (Fin vr) (Fin t)
  = Raise (ValueError (ThetaRowCount (length Xr) (length nus))).
Proof.
  intros Hv Hn0 Hnus Ha HX HN.
  unfold build_retarded_mjlog, retarded_delays. simpl. decide_R.
  rewrite delays_loop_value by assumption. simpl.
  rewrite retarded_phase_matrix_reals. simpl.
  unfold mjlog. simpl. decide_R.
  rewrite !check_entries_pass by assumption. simpl.
  rewrite !length_map.
  destruct (Nat.eqb_spec (length Xr) (length nus)); [contradiction | reflexivity].
Qed.

Lemma build_retarded_mjlog_row_count_witness :
  0 < 1 /\ 0 < 432 /\ Forall (fun r => 0 < r) [432; 434] /\ Forall (fun r => 0 < r) [1]
  /\ Forall (fun xi : list R => length xi = length [0]) [[3]]
  /\ build_retarded_mjlog [[Fin 3]] [Fin 432; Fin 434] [Fin 1] (Fin 432) [Fin 0]
                          (Fin 1) (Fin 0)
     = Raise (ValueError (ThetaRowCount 1 2)).
Proof.
  split; [lra |]. split; [lra |].
  split; [repeat constructor; lra |]. split; [repeat constructor; lra |].
  split; [repeat constructor |].
  apply (build_retarded_mjlog_row_count [[3]] [432; 434] [1] [0] 432 1 0);
    [lra | lra | repeat constructor; lra | repeat constructor; lra
     | repeat constructor | simpl; lia].
Defined.

Lemma delays_loop_nan (x_star : list pyfloat) (X : list (list pyfloat)) :
  Forall (fun xi => length xi = length x_star) X ->
  delays_loop x_star NaN X = Ok (repeat NaN (length X)).
Proof.
  intros HF. induction HF as [| xi X Hxi _ IH]; simpl; [reflexivity |].
  rewrite Hxi, Nat.eqb_refl. simpl.
  destruct (fsqrt_nonneg _ (dist2_nonneg xi x_star)) as (d & -> & _). simpl.
  rewrite IH. destruct d; reflexivity.
Qed.

Lemma theta_cell_nan (t : pyfloat) (Om_ps : pyfloat * pyfloat) :
  theta_cell t NaN Om_ps = NaN.
Proof.
  unfold theta_cell, fsub. destruct Om_ps as [Om ps]; simpl.
  replace (fadd t NaN) with NaN by (destruct t; reflexivity).
  replace (fmul Om NaN) with NaN by (destruct Om; reflexivity).
  reflexivity.
Qed.

(** X22: in exact arithmetic the NaN speed that [retarded_delays] lets
    through does not yield a matrix: with at least one position and one
    scale,
    [build_retarded_mjlog] raises a [ValueError], because every phase is
    NaN and [mjlog] rejects it. *)
Theorem build_retarded_mjlog_nan_speed (X : list (list pyfloat)) (nu_i_hz a_j : list pyfloat)
    (nu0_hz : pyfloat) (x_star : list pyfloat) (t : pyfloat) :
  X <> [] -> a_j <> [] -> Forall (fun xi => length xi = length x_star) X ->
  is_value_error (build_retarded_mjlog X nu_i_hz a_j nu0_hz x_star NaN t).
Proof.
  intros HX Ha HF.
  unfold build_retarded_mjlog, retarded_delays. simpl.
  rewrite delays_loop_nan by exact HF. simpl.
  unfold retarded_phase_matrix, psi_or_zeros.
  rewrite repeat_length, Nat.eqb_refl. simpl.
  set (theta := map _ (repeat NaN (length X))).
  pose proof (mjlog_cases nu_i_hz a_j nu0_hz (Some theta)) as Hc.
  destruct (mjlog nu_i_hz a_j nu0_hz (Some theta)) as [M | e] eqn:E; simpl.
  - exfalso. apply mjlog_Ok_inv in E as (_ & _ & _ & _ & Hwf).
    destruct X as [| xi X']; [congruence |].
    destruct a_j as [| aj a']; [congruence |].
    unfold theta in Hwf. simpl in Hwf.
    inversion Hwf as [| row rows [_ Hrow] _]; subst.
    inversion Hrow as [| th ths Hth _]; subst.
    rewrite theta_cell_nan in Hth. discriminate Hth.
  - destruct Hc as [v ->]. exists v. reflexivity.
Qed.

Lemma build_retarded_mjlog_nan_speed_witness :
  [[Fin 3; Fin 4]] <> [] /\ [Fin 1] <> []
  /\ Forall (fun xi => length xi = length [Fin 0; Fin 0]) [[Fin 3; Fin 4]]
  /\ is_value_error
       (build_retarded_mjlog [[Fin 3; Fin 4]] [Fin 432] [Fin 1] (Fin 432)
                             [Fin 0; Fin 0] NaN (Fin 0)).
Proof.
  split; [discriminate |]. split; [discriminate |].
  split; [repeat constructor |].
  apply (build_retarded_mjlog_nan_speed [[Fin 3; Fin 4]] [Fin 432] [Fin 1] (Fin 432)
                                        [Fin 0; Fin 0] (Fin 0));
    [discriminate | discriminate | repeat constructor].
Defined.

(** ** The harmonic ladder *)

Lemma PI_upper : PI < 31421 / 10000.
Proof.
  pose proof (PI_2_3_7_ineq 1) as [_ H].
  unfold sum_f_R0, tg_alt, PI_2_3_7_tg, Ratan_seq in H.
  simpl in H. lra.
Qed.

Lemma sqrt5_bounds : 2 < sqrt 5 < 22361 / 10000.
Proof.
  split.
  - replace 2 with (sqrt (2 * 2)) at 1 by (apply sqrt_square; lra).
    apply sqrt_lt_1_alt. lra.
  - replace (22361 / 10000) with (sqrt ((22361 / 10000) * (22361 / 10000)))
      by (apply sqrt_square; lra).
    apply sqrt_lt_1_alt. lra.
Qed.

Lemma phi_R_bounds : 1 < phi_R /\ 1 < sqrt phi_R < 12721 / 10000.
Proof.
  pose proof sqrt5_bounds as [Hlo Hhi]. unfold phi_R.
  split; [lra |]. split.
  - replace 1 with (sqrt (1 * 1)) at 1 by (apply sqrt_square; lra).
    apply sqrt_lt_1_alt. lra.
  - replace (12721 / 10000) with (sqrt ((12721 / 10000) * (12721 / 10000)))
      by (apply sqrt_square; lra).
    apply sqrt_lt_1_alt. lra.
Qed.

(** The ladder ratio is below one: [pi < pi_phi = 4 / sqrt(phi)]. *)
Lemma ladder_ratio_bounds : 0 < ladder_ratio < 1.
Proof.
  pose proof PI_upper as Hpi. pose proof PI_RGT_0 as Hpi0.
  destruct phi_R_bounds as [_ [Hs1 Hs2]].
  unfold ladder_ratio.
  replace (PI / (4 / sqrt phi_R)) with (PI * sqrt phi_R / 4) by (field; lra).
  split; nra.
Qed.

Lemma harmonic_ladder_default (f0 : R) (n m : Z) :
  harmonic_ladder (Fin f0) n m PI_f PHI
  = Ok (Fin (f0 * powerRZ ladder_ratio n * powerRZ phi_R m)).
Proof.
  destruct phi_R_bounds as [Hphi [Hs1 Hs2]].
  pose proof ladder_ratio_bounds as [Hr0 Hr1].
  unfold harmonic_ladder. rewrite golden_pi_PHI_value. fold phi_R. simpl.
  assert (Hg : 0 < 4 / sqrt phi_R) by (apply Rdiv_lt_0_compat; lra).
  unfold fdiv. decide_R. simpl. fold ladder_ratio.
  unfold fpow_int, PHI. fold phi_R.
  destruct (Z.eqb_spec n 0) as [-> | Hn]; destruct (Z.eqb_spec m 0) as [-> | Hm];
    simpl; decide_R; simpl; reflexivity.
Qed.

(** X24: rungs compose.  With the default constants, the ladder started at
    rung [(n, m)] of [f0] and climbed by [(n', m')] is rung
    [(n + n', m + m')] of [f0]; rung [(0, 0)] is [f0] itself. *)
Theorem harmonic_ladder_compose (f0 : R) (n m n' m' : Z) :
  harmonic_ladder (Fin f0) 0 0 PI_f PHI = Ok (Fin f0)
  /\ exists f1,
       harmonic_ladder (Fin f0) n m PI_f PHI = Ok (Fin f1)
       /\ harmonic_ladder (Fin f1) n' m' PI_f PHI
          = harmonic_ladder (Fin f0) (n + n') (m + m') PI_f PHI.
Proof.
  destruct phi_R_bounds as [Hphi _].
  pose proof ladder_ratio_bounds as [Hr0 Hr1].
  split.
  - rewrite harmonic_ladder_default. simpl. do 2 f_equal. ring.
  - eexists. split; [apply harmonic_ladder_default |].
    rewrite !harmonic_ladder_default, !powerRZ_add by lra.
    do 2 f_equal. ring.
Qed.

(** ** Geometry and spectral predictions *)

Lemma map_result_Ok {A B : Type} (f : A -> result B) (g : A -> B) (xs : list A) :
  (forall x, In x xs -> f x = Ok (g x)) -> map_result f xs = Ok (map g xs).
Proof.
  induction xs as [| x xs IH]; intros Hf; simpl; [reflexivity |].
  rewrite (Hf x) by (left; reflexivity). simpl.
  rewrite IH by (intros y Hy; apply Hf; right; exact Hy). reflexivity.
Qed.

(** X26: in exact arithmetic, on a finite non-zero path length and
    golden-ratio parameter,
    [peak_frequencies] returns two lists as long as [n_values]: the control
    peaks [(2n+1) c / (2 L0)], odd multiples of [c / (2 L0)], and the
    golden peaks, each the control peak divided by [phi]. *)
Theorem peak_frequencies_value (L p c : R) (n_values : list Z) :
  L <> 0 -> p <> 0 ->
  let ctrl := map (fun n => IZR (2 * n + 1) * (c / (2 * L))) n_values in
  let gr := map (fun n => IZR (2 * n + 1) * (c / (2 * L)) / p) n_values in
  peak_frequencies (Fin L) n_values (Fin p) (Fin c) = Ok (map Fin ctrl, map Fin gr)
  /\ length ctrl = length n_values /\ length gr = length n_values.
Proof.
  intros HL Hp ctrl gr.
  split; [| unfold ctrl, gr; rewrite !length_map; auto].
  unfold peak_frequencies.
  rewrite (map_result_Ok _ (fun n => Fin (IZR (2 * n + 1) * (c / (2 * L))))).
  - simpl.
    rewrite (map_result_Ok _ (fun n => Fin (IZR (2 * n + 1) * (c / (2 * L)) / p))).
    + simpl. unfold ctrl, gr. rewrite !map_map. reflexivity.
    + intros n _. unfold peak_frequency_phi, fdiv. simpl.
      assert (H2 : 2 * L * p <> 0) by (apply Rmult_integral_contrapositive; split; lra).
      decide_R. do 2 f_equal. field. lra.
  - intros n _. unfold peak_frequency_control, fdiv. simpl.
    decide_R. do 2 f_equal. field. lra.
Qed.

Lemma peak_frequencies_value_witness :
  1 <> 0 /\ 2 <> 0
  /\ peak_frequencies (Fin 1) [0; 1]%Z (Fin 2) (Fin 4)
     = Ok ([Fin (IZR (2 * 0 + 1) * (4 / (2 * 1))); Fin (IZR (2 * 1 + 1) * (4 / (2 * 1)))],
           [Fin (IZR (2 * 0 + 1) * (4 / (2 * 1)) / 2);
            Fin (IZR (2 * 1 + 1) * (4 / (2 * 1)) / 2)]).
Proof.
  split; [lra |]. split; [lra |].
  apply (peak_frequencies_value 1 2 4 [0; 1]%Z); lra.
Defined.

Lemma fdiv_raises_iff (x y : pyfloat) : raises (fdiv x y) <-> y = Fin 0.
Proof.
  unfold raises, fdiv. destruct y as [b | | |].
  - destruct (Req_dec_T b 0) as [-> | Hb].
    + decide_R. split; [reflexivity | eauto].
    + replace (Reqb b 0) with false by (symmetry; apply Reqb_false; exact Hb).
      split.
      * intros [e He]. destruct x; discriminate.
      * intros E. injection E as E. contradiction.
  - split; [intros [e He]; destruct x; discriminate | discriminate].
  - split; [intros [e He]; destruct x; discriminate | discriminate].
  - split; [intros [e He]; discriminate | discriminate].
Qed.

Lemma map_result_raises {A B : Type} (f : A -> result B) (P : Prop) (xs : list A) :
  (forall x, raises (f x) <-> P) ->
  (raises (map_result f xs) <-> xs <> [] /\ P).
Proof.
  intros Hf. induction xs as [| x xs IH]; simpl.
  - split; [intros [e He]; discriminate | intros [H _]; congruence].
  - destruct (f x) as [y | e] eqn:Ex; simpl.
    + destruct (map_result f xs) as [ys | e] eqn:Exs; simpl.
      * split; [intros [e He]; discriminate |].
        intros [_ HP]. apply (Hf x) in HP. rewrite Ex in HP.
        destruct HP as [e He]. discriminate.
      * split; [| intros _; eexists; reflexivity].
        intros _. split; [discriminate |].
        apply IH. eexists; reflexivity.
    + split; [| intros _; eexists; reflexivity].
      intros _. split; [discriminate |].
      apply (Hf x). rewrite Ex. eexists; reflexivity.
Qed.

Lemma fmul_two_zero (x : pyfloat) : fmul (Fin 2) x = Fin 0 <-> x = Fin 0.
Proof.
  destruct x as [r | | |]; simpl.
  - split; intros E; injection E as E; f_equal; lra.
  - unfold inf_times. decide_R. simpl. split; discriminate.
  - unfold inf_times. decide_R. simpl. split; discriminate.
  - split; discriminate.
Qed.

(** X27: in exact arithmetic [peak_frequencies] raises (a division by
    zero) exactly when
    [n_values] is non-empty and either [L0] is zero, or [L0] is finite and
    [phi] is zero; infinite or NaN arguments never raise. *)
Theorem peak_frequencies_raises_iff (L0_m phi c : pyfloat) (n_values : list Z) :
  raises (peak_frequencies L0_m n_values phi c)
  <-> n_values <> []
      /\ (L0_m = Fin 0 \/ ((exists l, L0_m = Fin l) /\ phi = Fin 0)).
Proof.
  assert (Hc : forall n, raises (peak_frequency_control n L0_m c) <-> L0_m = Fin 0).
  { intros n. unfold peak_frequency_control. rewrite fdiv_raises_iff. apply fmul_two_zero. }
  assert (Hinf : forall (s : bool) (r : R), inf_times s r <> Fin 0).
  { intros s r. unfold inf_times.
    destruct (Reqb r 0); [discriminate |].
    destruct (Bool.eqb s (Rltb 0 r)); discriminate. }
  assert (Hp : L0_m <> Fin 0 -> forall n,
            raises (peak_frequency_phi n L0_m phi c)
            <-> ((exists l, L0_m = Fin l) /\ phi = Fin 0)).
  { intros HL n. unfold peak_frequency_phi. rewrite fdiv_raises_iff.
    destruct L0_m as [l | | |].
    - assert (Hl : l <> 0) by (intros ->; apply HL; reflexivity).
      destruct phi as [p | | |]; simpl.
      + split.
        * intros E. injection E as E.
          destruct (Rmult_integral _ _ E) as [H2l | Hp0]; [lra |].
          split; [eauto | f_equal; exact Hp0].
        * intros [_ E]. injection E as ->. f_equal. ring.
      + split; [intros E; exfalso; exact (Hinf _ _ E) | intros [_ E]; discriminate].
      + split; [intros E; exfalso; exact (Hinf _ _ E) | intros [_ E]; discriminate].
      + split; [discriminate | intros [_ E]; discriminate].
    - simpl. unfold inf_times at 1. decide_R. simpl.
      split; [| intros [[l E] _]; discriminate].
      destruct phi; simpl; try discriminate. intros E; exfalso; exact (Hinf _ _ E).
    - simpl. unfold inf_times at 1. decide_R. simpl.
      split; [| intros [[l E] _]; discriminate].
      destruct phi; simpl; try discriminate. intros E; exfalso; exact (Hinf _ _ E).
    - simpl. split; [discriminate | intros [[l E] _]; discriminate]. }
  pose proof (map_result_raises _ _ n_values Hc) as Rc.
  unfold peak_frequencies.
  destruct (map_result (fun n => peak_frequency_control n L0_m c) n_values)
    as [ctrl | e] eqn:Ec; simpl.
  - assert (HL : n_values = [] \/ L0_m <> Fin 0).
    { destruct n_values as [| n ns]; [left; reflexivity | right].
      intros E0. assert (Hr : raises (@Ok (list pyfloat) ctrl)).
      { apply Rc. split; [discriminate | exact E0]. }
      destruct Hr as [e He]. discriminate. }
    destruct HL as [-> | HL].
    + simpl. split; [intros [e He]; discriminate | intros [H _]; congruence].
    + pose proof (map_result_raises _ _ n_values (Hp HL)) as Rp.
      destruct (map_result (fun n => peak_frequency_phi n L0_m phi c) n_values)
        as [gr | e] eqn:Eg; simpl.
      * split; [intros [e He]; discriminate |].
        intros [Hn [H0 | H]]; [contradiction |].
        assert (Hr : raises (@Ok (list pyfloat) gr)) by (apply Rp; auto).
        destruct Hr as [e He]. discriminate.
      * split; [| intros _; eexists; reflexivity].
        intros _. assert (Hr : raises (@Raise (list pyfloat) e)) by (eexists; reflexivity).
        apply Rp in Hr as [Hn H]. auto.
  - split; [| intros _; eexists; reflexivity].
    intros _. assert (Hr : raises (@Raise (list pyfloat) e)) by (eexists; reflexivity).
    apply Rc in Hr as [Hn HL]. split; [exact Hn | left; exact HL].
Qed.

(** ** Round-trip phases *)

Lemma phase_finite (nu L c : R) :
  c <> 0 -> phase (Fin nu) (Fin L) (Fin c) = Ok (Fin (phase_value nu L c)).
Proof.
  intros Hc. unfold phase, fdiv. simpl.
  replace (Reqb c 0) with false by (symmetry; apply Reqb_false; exact Hc).
  simpl. unfold py_mod. rewrite two_PI_nonzero. reflexivity.
Qed.

Lemma phase_value_range (nu L c : R) : 0 <= phase_value nu L c < 2 * PI.
Proof.
  pose proof PI_RGT_0 as HPI. unfold phase_value.
  set (th := 2 * PI * nu / c * L).
  destruct (base_Int_part (th / (2 * PI))) as [Hlo Hhi].
  assert (Hq : th = th / (2 * PI) * (2 * PI)) by (field; lra).
  split; nra.
Qed.

(** X28: in exact arithmetic, for finite arguments and a non-zero speed,
    [phase] returns the
    angle [(2 pi nu / c) L] reduced by a whole number of turns into
    [0, 2 pi); with a zero speed it raises the division error, whatever the
    other arguments. *)
Theorem phase_range (nu L c : R) :
  (c <> 0 ->
   exists (w : R) (k : Z),
     phase (Fin nu) (Fin L) (Fin c) = Ok (Fin w)
     /\ w = 2 * PI * nu / c * L - 2 * PI * IZR k /\ 0 <= w < 2 * PI)
  /\ forall nu_hz L_eff_m, phase nu_hz L_eff_m (Fin 0) = Raise ZeroDivisionError.
Proof.
  split.
  - intros Hc.
    exists (phase_value nu L c), (Int_part (2 * PI * nu / c * L / (2 * PI))).
    split; [apply phase_finite, Hc |].
    split; [reflexivity | apply phase_value_range].
  - intros nu_hz L_eff_m. unfold phase, fdiv. decide_R. reflexivity.
Qed.

Lemma phase_range_witness :
  1 <> 0
  /\ exists (w : R) (k : Z),
       phase (Fin 3) (Fin 5) (Fin 1) = Ok (Fin w)
       /\ w = 2 * PI * 3 / 1 * 5 - 2 * PI * IZR k /\ 0 <= w < 2 * PI.
Proof.
  split; [lra |].
  apply (phase_range 3 5 1). lra.
Defined.

Lemma Int_part_shift (q : R) (k : Z) : Int_part (q + IZR k) = (Int_part q + k)%Z.
Proof.
  symmetry. apply Int_part_spec.
  destruct (base_Int_part q) as [Hlo Hhi]. rewrite plus_IZR. lra.
Qed.

(** X29: lengthening the path by a whole number of wavelengths [c / nu]
    leaves the phase unchanged (in exact arithmetic). *)
Theorem phase_wavelength_periodic (nu L c : R) (k : Z) :
  nu <> 0 -> c <> 0 ->
  phase (Fin nu) (Fin (L + IZR k * (c / nu))) (Fin c) = phase (Fin nu) (Fin L) (Fin c).
Proof.
  intros Hnu Hc. pose proof PI_RGT_0 as HPI.
  rewrite !phase_finite by exact Hc. do 2 f_equal.
  unfold phase_value.
  set (th := 2 * PI * nu / c * L).
  replace (2 * PI * nu / c * (L + IZR k * (c / nu))) with (th + 2 * PI * IZR k)
    by (unfold th; field; split; assumption).
  replace ((th + 2 * PI * IZR k) / (2 * PI)) with (th / (2 * PI) + IZR k)
    by (field; lra).
  rewrite Int_part_shift, plus_IZR. ring.
Qed.

Lemma phase_wavelength_periodic_witness :
  3 <> 0 /\ 2 <> 0
  /\ phase (Fin 3) (Fin (5 + IZR 4 * (2 / 3))) (Fin 2) = phase (Fin 3) (Fin 5) (Fin 2).
Proof.
  split; [lra |]. split; [lra |].
  apply (phase_wavelength_periodic 3 5 2 4); lra.
Defined.

(** X30: in exact arithmetic, for finite arguments and a non-zero speed,
    [phase_matrix] returns
    one row per frequency and one column per path length, the cell (i, j)
    being the phase of [nu[i]] over [L[j]], a value in [0, 2 pi). *)
Theorem phase_matrix_value (nus Ls : list R) (c : R) :
  c <> 0 ->
  phase_matrix (map Fin nus) (map Fin Ls) (Fin c)
  = Ok (map (fun nu => map (fun L => Fin (phase_value nu L c)) Ls) nus)
  /\ Forall (fun nu => Forall (fun L => 0 <= phase_value nu L c < 2 * PI) Ls) nus.
Proof.
  intros Hc. split.
  - unfold phase_matrix.
    assert (Hrow : forall nu,
              map_result (fun L_eff => phase (Fin nu) L_eff (Fin c)) (map Fin Ls)
              = Ok (map (fun L => Fin (phase_value nu L c)) Ls)).
    { intros nu. induction Ls as [| L Ls IH]; simpl; [reflexivity |].
      rewrite phase_finite by exact Hc. simpl. rewrite IH. reflexivity. }
    induction nus as [| nu nus IH]; simpl; [reflexivity |].
    rewrite Hrow. simpl. rewrite IH. reflexivity.
  - apply Forall_forall. intros nu _. apply Forall_forall. intros L _.
    apply phase_value_range.
Qed.

Lemma phase_matrix_value_witness :
  2 <> 0
  /\ phase_matrix [Fin 1; Fin 3] [Fin 5] (Fin 2)
     = Ok [[Fin (phase_value 1 5 2)]; [Fin (phase_value 3 5 2)]].
Proof.
  split; [lra |].
  apply (phase_matrix_value [1; 3] [5] 2). lra.
Defined.

(** ** Further properties in binary64 *)

Section SampledMinors64.
Context `{B64.LibM} {G : Type} `{B64.RandomGen G}.


End SampledMinors64.





(** X25: [control_path_length] raises exactly when the square of [R] or of
    [H] overflows, and then [OverflowError]; the square root never raises,
    and a returned length is never negative. *)
Theorem control_path_length_total (R_m H_m : float) :
  (raises (B64.control_path_length R_m H_m)
   <-> B64.square_overflow R_m = true \/ B64.square_overflow H_m = true)
  /\ (forall e, B64.control_path_length R_m H_m = Raise e -> e = OverflowError)
  /\ (forall L, B64.control_path_length R_m H_m = Ok L -> (L <? 0)%float = false).
Proof.
  unfold B64.control_path_length.
  destruct (pow2_cases R_m) as [[Eo E] | [Eo E]]; rewrite E, Eo; cbn [bind].
  { split; [split; [auto | intros _; eexists; reflexivity] |].
    split; [intros e He; congruence | discriminate]. }
  destruct (pow2_cases H_m) as [[Ho E'] | [Ho E']]; rewrite E', Ho; cbn [bind].
  { split; [split; [auto | intros _; eexists; reflexivity] |].
    split; [intros e He; congruence | discriminate]. }
  assert (Hs : (R_m * R_m + H_m * H_m <? 0)%float = false)
    by (apply add_not_negative; apply square_not_negative).
  rewrite (msqrt_not_negative _ Hs). cbn [bind].
  split; [split; [intros [e He]; discriminate | intros [? | ?]; discriminate] |].
  split; [discriminate |].
  intros L HL. injection HL as <-.
  apply mul_not_negative; [reflexivity | apply sqrt_not_negative].
Qed.
